(** * NeuroGate: the circuit breaker and the round-robin dispatcher

    A shallow embedding of [pkg/circuitbreaker/circuitbreaker.go], of the
    health checker of [pkg/health] and of the selection, dispatch, probing,
    listing and API-key code of [cmd/gateway/main.go], followed by the
    properties of the worker-pool dispatcher.

    Mutable Go objects are threaded explicitly.  Everything a method obtains
    from outside its receiver (the readings of [time.Now], the goroutines it
    launches) lives in a [World].  Calls are taken one at a time: every
    method of a breaker runs under the breaker's lock, and the interleaving
    of request goroutines is not modelled. *)

From stdpp Require Import base list list_numbers strings gmap pretty.
From Stdlib Require Import ZArith Lia Ascii.

Local Open Scope Z_scope.

(** ** Go values *)

Module Go.

(** [int] and [time.Duration] are 64-bit signed, [uint32] is 32-bit
    unsigned; arithmetic wraps. *)
Definition maxInt64 : Z := 2 ^ 63 - 1.
Definition minInt64 : Z := - 2 ^ 63.

Definition wrap64 (x : Z) : Z := (x + 2 ^ 63) mod 2 ^ 64 - 2 ^ 63.
Definition wrap32 (x : Z) : Z := x mod 2 ^ 32.

(** A [time.Time] is an instant, counted in nanoseconds from the zero
    [Time]; a [time.Duration] is a count of nanoseconds. *)
Definition Time : Type := Z.
Definition Duration : Type := Z.

Definition zeroTime : Time := 0.
Definition Second : Duration := 1000000000.

(** [t.Sub(u)]: the difference, saturated to the range of [Duration]. *)
Definition time_Sub (t u : Time) : Duration :=
  Z.max minInt64 (Z.min maxInt64 (t - u)).

(** A function value handed to the breaker as [OnStateChange]; only its
    identity and the arguments of its calls are observed. *)
Inductive Callback : Type := callback (id : nat).

(** What lies outside the objects: the successive readings of [time.Now]
    (the [reads]-th call returns [clock reads]) and the goroutines launched
    so far, most recent first. *)
Record World (G : Type) : Type := mkWorld {
  clock : nat → Time;
  reads : nat;
  spawned : list G
}.
Arguments mkWorld {G} _ _ _.
Arguments clock {G} _ _.
Arguments reads {G} _.
Arguments spawned {G} _.

Definition time_Now {G} (w : World G) : Time * World G :=
  (clock w (reads w), mkWorld (clock w) (S (reads w)) (spawned w)).

(** [time.Since(t)] is [time.Now().Sub(t)]. *)
Definition time_Since {G} (t : Time) (w : World G) : Duration * World G :=
  let '(now, w1) := time_Now w in (time_Sub now t, w1).

(** [go f(...)] *)
Definition go {G} (g : G) (w : World G) : World G :=
  mkWorld (clock w) (reads w) (g :: spawned w).

End Go.

Import Go.

(** ** Package circuitbreaker *)

Module circuitbreaker.

(** [type State int] with its three constants.  The field [state] is
    unexported and only ever assigned one of them, so the [default]
    branches of the [switch] statements are not reachable. *)
Inductive State : Type := StateClosed | StateOpen | StateHalfOpen.

Global Instance State_eq_dec : EqDecision State.
Proof. solve_decision. Defined.

Definition State_String (s : State) : string :=
  match s with
  | StateClosed => "closed"
  | StateOpen => "open"
  | StateHalfOpen => "half-open"
  end.

(** The call [cb.onStateChange(cb.name, oldState, newState)] that
    [transitionTo] launches in a goroutine. *)
Record StateChange : Type := mkStateChange {
  sc_fn : Callback;
  sc_name : string;
  sc_from : State;
  sc_to : State
}.

Definition World : Type := Go.World StateChange.

Record CircuitBreaker : Type := mkCircuitBreaker {
  name : string;
  state : State;
  failureCount : Z;
  successCount : Z;
  lastFailure : Time;
  lastStateChange : Time;
  failureThreshold : Z;
  successThreshold : Z;
  timeout : Duration;
  onStateChange : option Callback
}.

Record Config : Type := mkConfig {
  Name : string;
  FailureThreshold : Z;
  SuccessThreshold : Z;
  Timeout : Duration;
  OnStateChange : option Callback
}.

(** Field assignments. *)
Definition set_state (s : State) (cb : CircuitBreaker) : CircuitBreaker :=
  mkCircuitBreaker (name cb) s (failureCount cb) (successCount cb)
    (lastFailure cb) (lastStateChange cb) (failureThreshold cb)
    (successThreshold cb) (timeout cb) (onStateChange cb).
Definition set_failureCount (n : Z) (cb : CircuitBreaker) : CircuitBreaker :=
  mkCircuitBreaker (name cb) (state cb) n (successCount cb)
    (lastFailure cb) (lastStateChange cb) (failureThreshold cb)
    (successThreshold cb) (timeout cb) (onStateChange cb).
Definition set_successCount (n : Z) (cb : CircuitBreaker) : CircuitBreaker :=
  mkCircuitBreaker (name cb) (state cb) (failureCount cb) n
    (lastFailure cb) (lastStateChange cb) (failureThreshold cb)
    (successThreshold cb) (timeout cb) (onStateChange cb).
Definition set_lastFailure (t : Time) (cb : CircuitBreaker) : CircuitBreaker :=
  mkCircuitBreaker (name cb) (state cb) (failureCount cb) (successCount cb)
    t (lastStateChange cb) (failureThreshold cb)
    (successThreshold cb) (timeout cb) (onStateChange cb).
Definition set_lastStateChange (t : Time) (cb : CircuitBreaker) : CircuitBreaker :=
  mkCircuitBreaker (name cb) (state cb) (failureCount cb) (successCount cb)
    (lastFailure cb) t (failureThreshold cb)
    (successThreshold cb) (timeout cb) (onStateChange cb).

(** [New]: non-positive settings take the defaults 3, 1 and 30 s. *)
Definition New (cfg : Config) (w : World) : CircuitBreaker * World :=
  let ft := if FailureThreshold cfg <=? 0 then 3 else FailureThreshold cfg in
  let st := if SuccessThreshold cfg <=? 0 then 1 else SuccessThreshold cfg in
  let to := if Timeout cfg <=? 0 then 30 * Second else Timeout cfg in
  let '(now, w1) := time_Now w in
  (mkCircuitBreaker (Name cfg) StateClosed 0 0 zeroTime now ft st to
     (OnStateChange cfg), w1).

Definition transitionTo (newState : State) (cb : CircuitBreaker) (w : World)
  : CircuitBreaker * World :=
  if decide (state cb = newState) then (cb, w)
  else
    let oldState := state cb in
    let cb1 := set_state newState cb in
    let '(now, w1) := time_Now w in
    let cb2 := set_lastStateChange now cb1 in
    let cb3 := set_failureCount 0 cb2 in
    let cb4 := set_successCount 0 cb3 in
    match onStateChange cb4 with
    | Some f => (cb4, go (mkStateChange f (name cb4) oldState newState) w1)
    | None => (cb4, w1)
    end.

Definition AllowRequest (cb : CircuitBreaker) (w : World)
  : bool * CircuitBreaker * World :=
  match state cb with
  | StateClosed => (true, cb, w)
  | StateOpen =>
      let '(elapsed, w1) := time_Since (lastFailure cb) w in
      if timeout cb <=? elapsed then
        let '(cb1, w2) := transitionTo StateHalfOpen cb w1 in
        (true, cb1, w2)
      else (false, cb, w1)
  | StateHalfOpen => (true, cb, w)
  end.

Definition RecordSuccess (cb : CircuitBreaker) (w : World)
  : CircuitBreaker * World :=
  match state cb with
  | StateClosed => (set_failureCount 0 cb, w)
  | StateHalfOpen =>
      let cb1 := set_successCount (wrap64 (successCount cb + 1)) cb in
      if successThreshold cb1 <=? successCount cb1 then
        transitionTo StateClosed cb1 w
      else (cb1, w)
  | StateOpen => (cb, w)
  end.

Definition RecordFailure (cb : CircuitBreaker) (w : World)
  : CircuitBreaker * World :=
  let cb1 := set_failureCount (wrap64 (failureCount cb + 1)) cb in
  let '(now, w1) := time_Now w in
  let cb2 := set_lastFailure now cb1 in
  match state cb2 with
  | StateClosed =>
      if failureThreshold cb2 <=? failureCount cb2 then
        transitionTo StateOpen cb2 w1
      else (cb2, w1)
  | StateHalfOpen => transitionTo StateOpen cb2 w1
  | StateOpen => (cb2, w1)
  end.

Definition Reset (cb : CircuitBreaker) (w : World) : CircuitBreaker * World :=
  let '(cb1, w1) := transitionTo StateClosed cb w in
  (set_successCount 0 (set_failureCount 0 cb1), w1).

(** Go's [error] values, as far as the dispatcher tells them apart:
    the package-level sentinel [ErrCircuitOpen], the errors that
    [selectWorker] builds with [fmt.Errorf], and what the remote call
    returns.  A remote error carries its cause (whether the call's
    deadline expired or the backend reported a failure) and the text that
    its [Error()] method yields. *)
Inductive Cause : Type := DeadlineExceeded | BackendFailure.

Inductive error : Type :=
| ErrCircuitOpen
| Errorf (text : string)
| RemoteError (cause : Cause) (text : string).

Global Instance Cause_eq_dec : EqDecision Cause.
Proof. solve_decision. Defined.

Global Instance error_eq_dec : EqDecision error.
Proof. solve_decision. Defined.

Definition err_Error (e : error) : string :=
  match e with
  | ErrCircuitOpen => "circuit breaker is open"
  | Errorf text => text
  | RemoteError _ text => text
  end.

(** [Execute].  The function [fn] acts on an environment of its own, of
    any type [E]; [None] is Go's [nil] error. *)
Definition Execute {E : Type} (fn : E → option error * E)
    (cb : CircuitBreaker) (w : World) (env : E)
  : option error * CircuitBreaker * World * E :=
  let '(ok, cb1, w1) := AllowRequest cb w in
  if negb ok then (Some ErrCircuitOpen, cb1, w1, env)
  else
    let '(err, env1) := fn env in
    match err with
    | Some e =>
        let '(cb2, w2) := RecordFailure cb1 w1 in
        (Some e, cb2, w2, env1)
    | None =>
        let '(cb2, w2) := RecordSuccess cb1 w1 in
        (None, cb2, w2, env1)
    end.

End circuitbreaker.

Import circuitbreaker.

(** ** Package health *)

Module health.

(** [type Status string] and its three constants; a check function may
    return any other string as well. *)
Definition Status : Type := string.
Definition StatusHealthy : Status := "healthy".
Definition StatusUnhealthy : Status := "unhealthy".
Definition StatusDegraded : Status := "degraded".

Record Check : Type := mkCheck {
  Check_Name : string;
  Check_Status : Status;
  Check_Message : string;
  Check_Latency : Duration
}.

Record Response : Type := mkResponse {
  Response_Status : Status;
  Response_Timestamp : Time;
  Response_Version : string;
  Response_Checks : gmap string Check
}.

(** A [CheckFunc] returns a (non-nil) [Check] and acts on an environment
    of its own, of type [E]. *)
Definition CheckFunc (E : Type) : Type := E → Check * E.

(** The field [results] of the Go struct is initialised by [NewChecker] and
    never used again; it is left out. *)
Record Checker (E : Type) : Type := mkChecker {
  version : string;
  checks : gmap string (CheckFunc E)
}.
Arguments mkChecker {E} _ _.
Arguments version {E} _.
Arguments checks {E} _.

Definition NewChecker {E} (version : string) : Checker E :=
  mkChecker version ∅.

Definition Register {E} (name : string) (check : CheckFunc E) (h : Checker E)
  : Checker E :=
  mkChecker (version h) (<[name := check]> (checks h)).

(** The body of the loop of [Run], for one entry of [h.checks]. *)
Definition Run_step {E} (acc : Response * E) (entry : string * CheckFunc E)
  : Response * E :=
  let '(response, env) := acc in
  let '(name, checkFn) := entry in
  let '(result, env1) := checkFn env in
  let checks1 := <[name := result]> (Response_Checks response) in
  let status1 :=
    if decide (Check_Status result = StatusUnhealthy) then StatusUnhealthy
    else if decide (Check_Status result = StatusDegraded) then
      if decide (Response_Status response = StatusHealthy) then StatusDegraded
      else Response_Status response
    else Response_Status response in
  (mkResponse status1 (Response_Timestamp response)
     (Response_Version response) checks1, env1).

(** [Run].  Go ranges over the map [h.checks] in an order of its choosing;
    [order] is that order, a listing of the entries of the map. *)
Definition Run {E G} (h : Checker E) (order : list (string * CheckFunc E))
    (w : Go.World G) (env : E) : Response * Go.World G * E :=
  let '(now, w1) := time_Now w in
  let '(response, env1) :=
    foldl Run_step (mkResponse StatusHealthy now (version h) ∅, env) order in
  (response, w1, env1).

(** The double quote. *)
Definition dquote : string := String (Ascii.ascii_of_nat 34) EmptyString.

(** What the handler returned by [HTTPHandler] writes: the status code and
    the body. *)
Definition HTTPHandler {E G} (h : Checker E)
    (order : list (string * CheckFunc E)) (w : Go.World G) (env : E)
  : (Z * string) * Go.World G * E :=
  let '(response, w1, env1) := Run h order w env in
  let statusCode :=
    if decide (Response_Status response = StatusUnhealthy) then 503 else 200 in
  (statusCode,
   "{" +:+ dquote +:+ "status" +:+ dquote +:+ ":" +:+ dquote
     +:+ Response_Status response +:+ dquote +:+ "," +:+ dquote
     +:+ "version" +:+ dquote +:+ ":" +:+ dquote
     +:+ Response_Version response +:+ dquote +:+ "}",
   w1, env1).

End health.

(** ** The gateway: worker pool, selection and dispatch *)

Module gateway.

(** A [*Worker] is its position in [g.workers]: the pool is built once by
    [NewGateway] and never changes afterwards.  The connection and the
    client stub belong to the transport and are left out. *)
Record Worker : Type := mkWorker {
  ID : string;
  Address : string;
  CB : CircuitBreaker;
  Healthy : bool
}.

Definition set_CB (cb : CircuitBreaker) (wk : Worker) : Worker :=
  mkWorker (ID wk) (Address wk) cb (Healthy wk).

Record Gateway : Type := mkGateway {
  workers : list Worker;
  workerIndex : Z        (* atomic.Uint32 *)
}.

(** How the scan of [selectWorker] ends: it returns the worker at [idx],
    it runs through all [workerCount] slots, or the slice is indexed out
    of range (a Go panic). *)
Inductive scan : Type := Found (idx : nat) | Exhausted | OutOfRange.

(** The [for] loop of [selectWorker], entered with [fuel] iterations left
    ([workerCount - i]).  The value of [i] at exit is returned as well. *)
Fixpoint selectWorker_loop (fuel : nat) (i startIndex workerCount : Z)
    (ws : list Worker) (w : World) : scan * Z * list Worker * World :=
  match fuel with
  | O => (Exhausted, i, ws, w)
  | S fuel' =>
      let idx := Z.to_nat (wrap32 (startIndex + i) mod workerCount) in
      match ws !! idx with
      | None => (OutOfRange, i, ws, w)
      | Some worker =>
          if Healthy worker then
            let '(ok, cb1, w1) := AllowRequest (CB worker) w in
            let ws1 := <[idx := set_CB cb1 worker]> ws in
            if ok then (Found idx, i, ws1, w1)
            else selectWorker_loop fuel' (i + 1) startIndex workerCount ws1 w1
          else selectWorker_loop fuel' (i + 1) startIndex workerCount ws w
      end
  end.

Inductive selection : Type :=
| Selected (idx : nat)
| Failed (e : error)
| IndexPanic.

Definition selectWorker (g : Gateway) (w : World)
  : selection * Gateway * World :=
  if (length (workers g) =? 0)%nat then
    (Failed (Errorf "no workers available"), g, w)
  else
    let added := wrap32 (workerIndex g + 1) in
    let startIndex := wrap32 (added - 1) in
    let workerCount := wrap32 (Z.of_nat (length (workers g))) in
    let '(r, _, ws, w1) :=
      selectWorker_loop (Z.to_nat workerCount) 0 startIndex workerCount
        (workers g) w in
    let g1 := mkGateway ws added in
    match r with
    | Found idx => (Selected idx, g1, w1)
    | Exhausted => (Failed (Errorf "all workers are unavailable"), g1, w1)
    | OutOfRange => (IndexPanic, g1, w1)
    end.

(** [NewGateway], with the workers that could be connected: a gateway is
    only returned for a pool that is not empty. *)
Definition NewGateway (connected : list Worker) : option Gateway :=
  if (length connected =? 0)%nat then None
  else Some (mkGateway connected 0).

(** The REST bodies and what [handlePrompt] hands to the transport and
    to the metrics recorder. *)
Record ErrorResponse : Type := mkErrorResponse {
  Error : string;
  Code : Z;
  Message : string
}.

(** The reply of the remote [GenerateText]. *)
Record Reply : Type := mkReply {
  Response : string;
  Model : string;
  TotalTokens : Z
}.

Record PromptResponse : Type := mkPromptResponse {
  pr_Response : string;
  pr_Model : string;
  pr_Tokens : Z;
  pr_LatencyMs : Z;
  pr_WorkerID : string
}.

Inductive Body : Type :=
| BodyError (e : ErrorResponse)
| BodyOK (r : PromptResponse).

Record Served : Type := mkServed {
  http_status : Z;
  http_body : Body;
  metric_code : string;      (* third argument of [metrics.RecordRequest] *)
  metric_duration : Duration
}.

Definition writeError (code : Z) (message detail : string) : Z * Body :=
  (code, BodyError (mkErrorResponse message code detail)).

Global Instance ErrorResponse_eq_dec : EqDecision ErrorResponse.
Proof. solve_decision. Defined.

(** The closure passed to [Execute]: it performs the remote call on the
    chosen worker and stores the reply in the captured variable [resp]. *)
Definition remote_closure {E : Type}
    (GenerateText : nat → E → (error + Reply) * E) (idx : nat)
  : E * option Reply → option error * (E * option Reply) :=
  fun '(env, resp) =>
    match GenerateText idx env with
    | (inl callErr, env1) => (Some callErr, (env1, None))
    | (inr r, env1) => (None, (env1, Some r))
    end.

(** The branch of [handlePrompt] taken when [Execute] returns an error:
    the sentinel is told apart by identity, every other error is passed
    on with its text. *)
Definition failure_reply (e : error) : Z * Body :=
  if decide (e = ErrCircuitOpen) then
    writeError 503 "worker temporarily unavailable" ""
  else writeError 500 "generation failed" (err_Error e).

(** [handlePrompt] from the selection of a worker on (the request was read
    at [start], authenticated and decoded).  [None] stands for a panic. *)
Definition handlePrompt {E : Type}
    (GenerateText : nat → E → (error + Reply) * E) (start : Time)
    (g : Gateway) (w : World) (env : E)
  : option Served * Gateway * World * E :=
  let '(sel, g1, w1) := selectWorker g w in
  match sel with
  | IndexPanic => (None, g1, w1, env)
  | Failed err =>
      let '(code, body) :=
        writeError 503 "no workers available" (err_Error err) in
      let '(d, w2) := time_Since start w1 in
      (Some (mkServed code body "503" d), g1, w2, env)
  | Selected idx =>
      match workers g1 !! idx with
      | None => (None, g1, w1, env)
      | Some worker =>
          let '(err, cb1, w2, (env1, resp)) :=
            Execute (remote_closure GenerateText idx) (CB worker) w1
              (env, None) in
          let g2 :=
            mkGateway (<[idx := set_CB cb1 worker]> (workers g1))
              (workerIndex g1) in
          match err with
          | Some e =>
              let '(code, body) := failure_reply e in
              let '(d, w3) := time_Since start w2 in
              (Some (mkServed code body "500" d), g2, w3, env1)
          | None =>
              match resp with
              | None => (None, g2, w2, env1)
              | Some r =>
                  let '(duration, w3) := time_Since start w2 in
                  let response :=
                    mkPromptResponse (Response r) (Model r) (TotalTokens r)
                      (duration / 1000000) (ID worker) in
                  (Some (mkServed 200 (BodyOK response) "200" duration),
                   g2, w3, env1)
              end
          end
      end
  end.


(** Assignment to the liveness flag, [worker.Healthy.Store]. *)
Definition set_Healthy (b : bool) (wk : Worker) : Worker :=
  mkWorker (ID wk) (Address wk) (CB wk) b.

(** The goroutine that [checkWorkersHealth] starts for one worker, given
    what its [HealthCheck] call returned: an error ([None]) or the reported
    [Healthy] field. *)
Definition probe_worker (reply : option bool) (wk : Worker) : Worker :=
  match reply with
  | None => set_Healthy false wk
  | Some healthy => set_Healthy healthy wk
  end.

(** [checkWorkersHealth] once all its goroutines have finished; [replies i]
    is what the probe of the worker at position [i] returned.  Each
    goroutine writes the flag of its own worker only. *)
Definition checkWorkersHealth (replies : nat → option bool) (g : Gateway)
  : Gateway :=
  mkGateway (imap (λ i wk, probe_worker (replies i) wk) (workers g))
    (workerIndex g).

(** The check that [NewGateway] registers under the name "workers". *)
Definition workers_check (g : Gateway) : health.Check :=
  let healthy :=
    foldl (λ n wk, if Healthy wk then wrap64 (n + 1) else n) 0 (workers g) in
  if healthy =? 0 then
    health.mkCheck "workers" health.StatusUnhealthy "no healthy workers" 0
  else if healthy <? Z.of_nat (length (workers g)) then
    health.mkCheck "workers" health.StatusDegraded
      (pretty healthy +:+ "/" +:+ pretty (Z.of_nat (length (workers g)))
         +:+ " workers healthy") 0
  else health.mkCheck "workers" health.StatusHealthy "" 0.

(** The map of API keys that [NewGateway] builds: empty strings are
    dropped. *)
Definition NewGateway_keyMap (apiKeys : list string) : gmap string bool :=
  foldl (λ keyMap key, if decide (key = "") then keyMap
                       else <[key := true]> keyMap) ∅ apiKeys.

(** [strings.SplitN(s, " ", 2)]: the text before the first space and the
    text after it, or [s] alone when it holds no space. *)
Fixpoint cut_space (s : string) : option (string * string) :=
  match s with
  | EmptyString => None
  | String c rest =>
      if decide (c = " "%char) then Some (EmptyString, rest)
      else match cut_space rest with
           | Some (before, after) => Some (String c before, after)
           | None => None
           end
  end.

Definition strings_SplitN_space_2 (s : string) : list string :=
  match cut_space s with
  | Some (before, after) => [before; after]
  | None => [s]
  end.

(** [strings.ToLower] on the letters A-Z.  Every other byte is kept; the
    result is only compared with "bearer", which no text with another
    rune lowers to. *)
Definition lower_ascii (c : ascii) : ascii :=
  let n := nat_of_ascii c in
  if ((65 <=? n) && (n <=? 90))%nat then ascii_of_nat (n + 32) else c.

Fixpoint strings_ToLower (s : string) : string :=
  match s with
  | EmptyString => EmptyString
  | String c rest => String (lower_ascii c) (strings_ToLower rest)
  end.

(** [validateAPIKey], on the map [g.apiKeys]; a key that is missing from a
    Go map reads as [false]. *)
Definition validateAPIKey (apiKeys : gmap string bool) (authHeader : string)
  : bool :=
  if decide (authHeader = "") then false
  else
    match strings_SplitN_space_2 authHeader with
    | [scheme; token] =>
        if decide (strings_ToLower scheme = "bearer") then
          default false (apiKeys !! token)
        else false
    | _ => false
    end.

(** The guard at the head of [handlePrompt]: keys are only checked when
    some are configured. *)
Definition handlePrompt_authorized (apiKeys : gmap string bool)
    (authHeader : string) : bool :=
  if (0 <? size apiKeys)%nat then validateAPIKey apiKeys authHeader else true.

(** One entry of the listing of [handleListWorkers]. *)
Record workerStatus : Type := mkWorkerStatus {
  ws_ID : string;
  ws_Address : string;
  ws_Healthy : bool;
  ws_CBState : string
}.

(** [handleListWorkers]: the entries and their count.  Nothing is changed:
    the state is read with [State()], which makes no transition. *)
Definition handleListWorkers (g : Gateway) : list workerStatus * nat :=
  let listed :=
    (λ wk, mkWorkerStatus (ID wk) (Address wk) (Healthy wk)
             (State_String (state (CB wk)))) <$> workers g in
  (listed, length listed).

End gateway.

Import gateway.

(** ** Sequences of calls *)

(** [n] consecutive calls of a method that returns nothing. *)
Fixpoint times (n : nat) (op : CircuitBreaker → World → CircuitBreaker * World)
    (cb : CircuitBreaker) (w : World) : CircuitBreaker * World :=
  match n with
  | O => (cb, w)
  | S n' => let '(cb1, w1) := op cb w in times n' op cb1 w1
  end.

(** [n] consecutive calls of [AllowRequest], with their answers in order. *)
Fixpoint AllowRequest_times (n : nat) (cb : CircuitBreaker) (w : World)
  : list bool * CircuitBreaker * World :=
  match n with
  | O => ([], cb, w)
  | S n' =>
      let '(ok, cb1, w1) := AllowRequest cb w in
      let '(oks, cb2, w2) := AllowRequest_times n' cb1 w1 in
      (ok :: oks, cb2, w2)
  end.

(** The methods that change a breaker, and the breakers that a program can
    hold: built by [New], then driven by any calls. *)
Inductive method : Type :=
| mAllowRequest | mRecordSuccess | mRecordFailure | mReset.

Definition call (m : method) (cb : CircuitBreaker) (w : World)
  : CircuitBreaker * World :=
  match m with
  | mAllowRequest => let '(_, cb1, w1) := AllowRequest cb w in (cb1, w1)
  | mRecordSuccess => RecordSuccess cb w
  | mRecordFailure => RecordFailure cb w
  | mReset => Reset cb w
  end.

Inductive reachable : CircuitBreaker → World → Prop :=
| reach_New cfg w : reachable (New cfg w).1 (New cfg w).2
| reach_call m cb w :
    reachable cb w → reachable (call m cb w).1 (call m cb w).2.

(** The test of [AllowRequest] in the open state, at the instant [now]. *)
Definition timed_out (cb : CircuitBreaker) (now : Time) : Prop :=
  timeout cb <= time_Sub now (lastFailure cb).

Global Instance timed_out_dec cb now : Decision (timed_out cb now).
Proof. unfold timed_out. apply _. Defined.

(** [fn], with a count of its invocations next to its environment. *)
Definition counted {E : Type} (fn : E → option error * E)
  : E * nat → option error * (E * nat) :=
  fun '(env, n) => let '(err, env1) := fn env in (err, (env1, S n)).

(** Sample values. *)
Definition sample_clock (k : nat) : Time :=
  1000 * Second + Z.of_nat k * (10 * Second).
Definition sample_world : World := mkWorld sample_clock 0 [].
Definition sample_config : Config :=
  mkConfig "worker-0" 3 1 (30 * Second) (Some (callback 0)).
Definition sample_new : CircuitBreaker * World := New sample_config sample_world.
Definition sample_opened : CircuitBreaker * World :=
  times 3 RecordFailure sample_new.1 sample_new.2.
Definition sample_halfopen : CircuitBreaker :=
  set_state StateHalfOpen (set_successCount 2 (set_failureCount 0
    (mkCircuitBreaker "b" StateClosed 0 0 0 0 3 5 (30 * Second) None))).

(** The thresholds and the timeout are as [New] leaves them for a
    configuration whose fields are an [int], an [int] and a [Duration]. *)
Definition configured (cb : CircuitBreaker) : Prop :=
  0 < failureThreshold cb <= maxInt64 ∧
  0 < successThreshold cb <= maxInt64 ∧
  0 < timeout cb <= maxInt64.

Definition sample_trial : CircuitBreaker * World :=
  call mAllowRequest
    (call mAllowRequest sample_opened.1 sample_opened.2).1
    (call mAllowRequest sample_opened.1 sample_opened.2).2.

(** [n] consecutive calls of [selectWorker], with their results in order. *)
Fixpoint selectWorker_times (n : nat) (g : Gateway) (w : World)
  : list selection * Gateway * World :=
  match n with
  | O => ([], g, w)
  | S n' =>
      let '(r, g1, w1) := selectWorker g w in
      let '(rs, g2, w2) := selectWorker_times n' g1 w1 in
      (r :: rs, g2, w2)
  end.

(** The number of slots the scan has looked at when it ends with [r] and
    loop variable [i]. *)
Definition slots_inspected (r : scan) (i : Z) : Z :=
  match r with
  | Found _ => i + 1
  | Exhausted | OutOfRange => i
  end.

(** The scan of [selectWorker] on [g], as [selectWorker] starts it. *)
Definition selectWorker_scan (g : Gateway) (w : World)
  : scan * Z * list Worker * World :=
  let workerCount := wrap32 (Z.of_nat (length (workers g))) in
  selectWorker_loop (Z.to_nat workerCount) 0
    (wrap32 (wrap32 (workerIndex g + 1) - 1)) workerCount (workers g) w.

(** A breaker permits at the instant [now]: it is not open, or its timeout
    has run out. *)
Definition permits (cb : CircuitBreaker) (now : Time) : Prop :=
  state cb = StateOpen → timed_out cb now.

(** A worker is eligible when its liveness flag is set and its breaker
    permits at the next reading of the clock. *)
Definition eligible (w : World) (wk : Worker) : Prop :=
  Healthy wk = true ∧ permits (CB wk) (clock w (reads w)).

(** A worker is ineligible during a scan of at most [n] slots when its
    liveness flag is off, or its breaker is open and refuses at each of the
    next [n] readings of the clock. *)
Definition ineligible (n : nat) (w : World) (wk : Worker) : Prop :=
  Healthy wk = false ∨
  (state (CB wk) = StateOpen ∧
   ∀ k, (k < n)%nat → ¬ timed_out (CB wk) (clock w (reads w + k))).

Definition monotone (clk : nat → Time) : Prop :=
  ∀ j k, (j <= k)%nat → clk j <= clk k.

(** The rotation the specification describes: pool order, starting from
    the value of the cursor after its increment. *)
Definition rotation_from_incremented (cursor : Z) (n : nat) : list selection :=
  (λ k, Selected (Z.to_nat ((cursor + 1 + Z.of_nat k) mod Z.of_nat n)))
    <$> seq 0 n.

(** The rotation of the code: pool order, starting from the value of the
    cursor before its increment. *)
Definition rotation_from_current (cursor : Z) (n : nat) : list selection :=
  (λ k, Selected (Z.to_nat ((cursor + Z.of_nat k) mod Z.of_nat n)))
    <$> seq 0 n.

Definition selected_index (r : selection) : option nat :=
  match r with
  | Selected idx => Some idx
  | Failed _ | IndexPanic => None
  end.

Definition sample_worker (id : string) (cb : CircuitBreaker) (healthy : bool)
  : Worker := mkWorker id "10.0.0.1:50051" cb healthy.

Definition sample_pool : Gateway :=
  mkGateway
    [sample_worker "worker-0" sample_new.1 true;
     sample_worker "worker-1" sample_new.1 true;
     sample_worker "worker-2" sample_new.1 true] 0.

Definition sample_tripped : CircuitBreaker :=
  mkCircuitBreaker "worker-1" StateOpen 0 0 (990 * Second) (990 * Second)
    3 1 (30 * Second) None.

Definition sample_down : Gateway :=
  mkGateway
    [sample_worker "worker-0" sample_new.1 false;
     sample_worker "worker-1" sample_tripped true] 7.

(** A remote call that always fails with [e]. *)
Definition failing_with (e : error) : nat → unit → (error + Reply) * unit :=
  λ _ env, (inl e, env).

Definition sample_deadline : error :=
  RemoteError DeadlineExceeded
    "rpc error: code = DeadlineExceeded desc = context deadline exceeded".
Definition sample_backend : error :=
  RemoteError BackendFailure
    "rpc error: code = Internal desc = failed to generate text: model not found".

(** The status codes that a failed gRPC call carries (every code of
    [google.golang.org/grpc/codes] but [OK]). *)
Inductive Code : Type :=
| codes_Canceled | codes_Unknown | codes_InvalidArgument
| codes_DeadlineExceeded | codes_NotFound | codes_AlreadyExists
| codes_PermissionDenied | codes_ResourceExhausted
| codes_FailedPrecondition | codes_Aborted | codes_OutOfRange
| codes_Unimplemented | codes_Internal | codes_Unavailable
| codes_DataLoss | codes_Unauthenticated.

Global Instance Code_eq_dec : EqDecision Code.
Proof. solve_decision. Defined.

(** [Code.String()] of the gRPC library. *)
Definition Code_String (c : Code) : string :=
  match c with
  | codes_Canceled => "Canceled"
  | codes_Unknown => "Unknown"
  | codes_InvalidArgument => "InvalidArgument"
  | codes_DeadlineExceeded => "DeadlineExceeded"
  | codes_NotFound => "NotFound"
  | codes_AlreadyExists => "AlreadyExists"
  | codes_PermissionDenied => "PermissionDenied"
  | codes_ResourceExhausted => "ResourceExhausted"
  | codes_FailedPrecondition => "FailedPrecondition"
  | codes_Aborted => "Aborted"
  | codes_OutOfRange => "OutOfRange"
  | codes_Unimplemented => "Unimplemented"
  | codes_Internal => "Internal"
  | codes_Unavailable => "Unavailable"
  | codes_DataLoss => "DataLoss"
  | codes_Unauthenticated => "Unauthenticated"
  end.

(** The error that the client stub [GenerateText] returns for a call that
    ended with status [c] and description [desc]; its [Error()] text is the
    one the gRPC library prints.  The deadline of the call's context running
    out gives [codes_DeadlineExceeded]; the worker itself answers
    [codes_InvalidArgument] or [codes_Internal], the transport with the
    other codes. *)
Definition status_error (c : Code) (desc : string) : error :=
  RemoteError
    (if decide (c = codes_DeadlineExceeded) then DeadlineExceeded
     else BackendFailure)
    ("rpc error: code = " +:+ Code_String c +:+ " desc = " +:+ desc).

(** The four failures of a request. *)
Inductive Outcome : Type :=
| outcome_Timeout | outcome_BackendError
| outcome_CircuitOpen | outcome_NoWorkerAvailable.

(** What a caller reads off an error reply: the status and the label tell
    a missing worker, an open circuit and a failed call apart; the text of
    a failed call tells whether its deadline ran out. *)
Definition outcome_of_reply (s : Served) : option Outcome :=
  match http_body s with
  | BodyOK _ => None
  | BodyError e =>
      if decide (http_status s = 503 ∧ Error e = "no workers available") then
        Some outcome_NoWorkerAvailable
      else if decide (http_status s = 503 ∧
                      Error e = "worker temporarily unavailable") then
        Some outcome_CircuitOpen
      else if decide (http_status s = 500 ∧ Error e = "generation failed") then
        if String.prefix "rpc error: code = DeadlineExceeded " (Message e)
        then Some outcome_Timeout
        else Some outcome_BackendError
      else None
  end.

(** The calls of a list of methods, one after the other. *)
Fixpoint calls (ms : list method) (cb : CircuitBreaker) (w : World)
  : CircuitBreaker * World :=
  match ms with
  | [] => (cb, w)
  | m :: ms' => let '(cb1, w1) := call m cb w in calls ms' cb1 w1
  end.

(** [handlePrompt] among other requests: [meanwhile] are the calls that
    other goroutines make on the breaker of the chosen worker after this
    request's [selectWorker] and before its [Execute].  Every method holds
    the breaker's lock, so such calls fall between the two. *)
Definition handlePrompt_racing {E : Type}
    (GenerateText : nat → E → (error + Reply) * E) (start : Time)
    (meanwhile : list method) (g : Gateway) (w : World) (env : E)
  : option Served * Gateway * World * E :=
  let '(sel, g1, w1) := selectWorker g w in
  match sel with
  | IndexPanic => (None, g1, w1, env)
  | Failed err =>
      let '(code, body) :=
        writeError 503 "no workers available" (err_Error err) in
      let '(d, w2) := time_Since start w1 in
      (Some (mkServed code body "503" d), g1, w2, env)
  | Selected idx =>
      match workers g1 !! idx with
      | None => (None, g1, w1, env)
      | Some worker =>
          let '(cbm, wm) := calls meanwhile (CB worker) w1 in
          let '(err, cb1, w2, (env1, resp)) :=
            Execute (remote_closure GenerateText idx) cbm wm (env, None) in
          let g2 :=
            mkGateway (<[idx := set_CB cb1 worker]> (workers g1))
              (workerIndex g1) in
          match err with
          | Some e =>
              let '(code, body) := failure_reply e in
              let '(d, w3) := time_Since start w2 in
              (Some (mkServed code body "500" d), g2, w3, env1)
          | None =>
              match resp with
              | None => (None, g2, w2, env1)
              | Some r =>
                  let '(duration, w3) := time_Since start w2 in
                  let response :=
                    mkPromptResponse (Response r) (Model r) (TotalTokens r)
                      (duration / 1000000) (ID worker) in
                  (Some (mkServed 200 (BodyOK response) "200" duration),
                   g2, w3, env1)
              end
          end
      end
  end.

(** The breakers obtained from one configuration: built by [New], then
    driven by any calls. *)
Inductive built_from (cfg : Config) : CircuitBreaker → World → Prop :=
| built_New w : built_from cfg (New cfg w).1 (New cfg w).2
| built_call m cb w :
    built_from cfg cb w → built_from cfg (call m cb w).1 (call m cb w).2.

(** The fields of a [Config] hold an [int], an [int] and a [Duration]. *)
Definition int_config (cfg : Config) : Prop :=
  FailureThreshold cfg <= maxInt64 ∧
  SuccessThreshold cfg <= maxInt64 ∧
  Timeout cfg <= maxInt64.

(** What the counters of a breaker satisfy in each state. *)
Definition counters_in_range (cb : CircuitBreaker) : Prop :=
  match state cb with
  | StateClosed =>
      0 <= failureCount cb < failureThreshold cb ∧ successCount cb = 0
  | StateOpen => successCount cb = 0
  | StateHalfOpen =>
      failureCount cb = 0 ∧ 0 <= successCount cb < successThreshold cb
  end.

(** The goroutines launched once a call has taken [cb] to [cb']. *)
Definition notified (cb cb' : CircuitBreaker) (w : World) : list StateChange :=
  if decide (state cb' = state cb) then spawned w
  else match onStateChange cb with
       | Some f =>
           mkStateChange f (name cb) (state cb) (state cb') :: spawned w
       | None => spawned w
       end.

(** The changes of state that a method can make. *)
Definition edge (m : method) (from to : State) : Prop :=
  match m, from, to with
  | mRecordFailure, StateClosed, StateOpen
  | mRecordFailure, StateHalfOpen, StateOpen
  | mAllowRequest, StateOpen, StateHalfOpen
  | mRecordSuccess, StateHalfOpen, StateClosed
  | mReset, StateOpen, StateClosed
  | mReset, StateHalfOpen, StateClosed => True
  | _, _, _ => False
  end.

(** [n] consecutive calls of [Execute] with the same function, with what
    they returned in order. *)
Fixpoint Execute_times {E : Type} (n : nat) (fn : E → option error * E)
    (cb : CircuitBreaker) (w : World) (env : E)
  : list (option error) * CircuitBreaker * World * E :=
  match n with
  | O => ([], cb, w, env)
  | S n' =>
      let '(err, cb1, w1, env1) := Execute fn cb w env in
      let '(errs, cb2, w2, env2) := Execute_times n' fn cb1 w1 env1 in
      (err :: errs, cb2, w2, env2)
  end.

(** A remote call that fails every time, and counts its invocations. *)
Definition always_failing (n : nat) : option error * nat :=
  (Some (Errorf "connection refused"), S n).

(** The slot that the scan of [selectWorker] on [g] looks at in its
    iteration [i]. *)
Definition scan_slot (g : Gateway) (i : Z) : nat :=
  Z.to_nat (wrap32 (wrap32 (wrap32 (workerIndex g + 1) - 1) + i)
              mod wrap32 (Z.of_nat (length (workers g)))).

(** A worker that the scan passes over: its liveness flag is off or its
    breaker is open. *)
Definition passed_over (wk : Worker) : Prop :=
  Healthy wk = false ∨ state (CB wk) = StateOpen.

(** What selection never touches in a worker. *)
Definition identity (wk : Worker) : string * string * bool :=
  (ID wk, Address wk, Healthy wk).

(** The remote call, with a count of its invocations next to its
    environment. *)
Definition counted_remote {E : Type}
    (GenerateText : nat → E → (error + Reply) * E)
  : nat → E * nat → (error + Reply) * (E * nat) :=
  λ idx '(env, n),
    let '(r, env1) := GenerateText idx env in (r, (env1, S n)).

(** A remote call that always answers. *)
Definition answering (r : Reply) : nat → unit → (error + Reply) * unit :=
  λ _ env, (inr r, env).

(** Some check in [m] reports the status [st]. *)
Definition reports (m : gmap string health.Check) (st : health.Status)
  : Prop :=
  ∃ name c, m !! name = Some c ∧ health.Check_Status c = st.

(** The overall status that the results [m] of the checks call for: the
    worst of them, where unhealthy is worse than degraded and any other
    status counts as healthy. *)
Definition worst_status (m : gmap string health.Check) (s : health.Status)
  : Prop :=
  (s = health.StatusUnhealthy ∧ reports m health.StatusUnhealthy) ∨
  (s = health.StatusDegraded ∧ ¬ reports m health.StatusUnhealthy ∧
   reports m health.StatusDegraded) ∨
  (s = health.StatusHealthy ∧ ¬ reports m health.StatusUnhealthy ∧
   ¬ reports m health.StatusDegraded).

(** Two checks of a service, acting on a count of the checks run. *)
Definition sample_checks : list (string * health.CheckFunc nat) :=
  [("workers", λ n, (health.mkCheck "workers" health.StatusDegraded
                       "2/3 workers healthy" 0, S n));
   ("ollama", λ n, (health.mkCheck "ollama" health.StatusUnhealthy
                      "connection refused" 7, S n))].

Definition sample_checker : health.Checker nat :=
  health.mkChecker "1.0.0" (list_to_map sample_checks).

(** ** Arithmetic of the machine types *)

Lemma wrap64_small x : minInt64 <= x <= maxInt64 → wrap64 x = x.
Proof.
  unfold wrap64, minInt64, maxInt64. intros H.
  rewrite Z.mod_small; lia.
Qed.

Lemma wrap32_small x : 0 <= x < 2 ^ 32 → wrap32 x = x.
Proof. unfold wrap32. intros H. apply Z.mod_small; lia. Qed.

Lemma wrap32_range x : 0 <= wrap32 x < 2 ^ 32.
Proof. unfold wrap32. apply Z.mod_pos_bound. lia. Qed.

(** Saturation does not change a comparison with a positive [Duration]. *)
Lemma time_Sub_ge (t u d : Z) :
  minInt64 < d <= maxInt64 → (d <=? time_Sub t u) = (u + d <=? t).
Proof.
  unfold time_Sub, minInt64, maxInt64. intros H.
  destruct (Z.leb_spec (u + d) t); [apply Z.leb_le | apply Z.leb_gt]; lia.
Qed.

(** ** The breaker, call by call *)

Lemma New_configured cfg w :
  FailureThreshold cfg <= maxInt64 → SuccessThreshold cfg <= maxInt64 →
  Timeout cfg <= maxInt64 → configured (New cfg w).1.
Proof.
  unfold configured, New, maxInt64, Second. intros Hf Hs Ht. simpl.
  repeat case_match; lia.
Qed.

Lemma transitionTo_same cb w : transitionTo (state cb) cb w = (cb, w).
Proof. unfold transitionTo. by rewrite decide_True. Qed.

Lemma transitionTo_state s cb w : state (transitionTo s cb w).1 = s.
Proof.
  unfold transitionTo. case_decide; [done |].
  simpl. by destruct (onStateChange cb).
Qed.

Lemma transitionTo_counters s cb w :
  state cb ≠ s →
  failureCount (transitionTo s cb w).1 = 0 ∧
  successCount (transitionTo s cb w).1 = 0.
Proof.
  intros Hne. unfold transitionTo. rewrite decide_False by done.
  simpl. by destruct (onStateChange cb).
Qed.

Lemma transitionTo_config s cb w :
  failureThreshold (transitionTo s cb w).1 = failureThreshold cb ∧
  successThreshold (transitionTo s cb w).1 = successThreshold cb ∧
  timeout (transitionTo s cb w).1 = timeout cb.
Proof.
  unfold transitionTo. case_decide; [done |].
  simpl. by destruct (onStateChange cb).
Qed.

Lemma RecordFailure_Closed_below cb w :
  state cb = StateClosed →
  wrap64 (failureCount cb + 1) < failureThreshold cb →
  RecordFailure cb w =
    (set_lastFailure (clock w (reads w))
       (set_failureCount (wrap64 (failureCount cb + 1)) cb),
     (time_Now w).2).
Proof.
  intros Hs Hlt. unfold RecordFailure. simpl. rewrite Hs.
  destruct (Z.leb_spec (failureThreshold cb) (wrap64 (failureCount cb + 1)));
    [lia | done].
Qed.

Lemma RecordFailure_Closed_reached cb w :
  state cb = StateClosed →
  failureThreshold cb <= wrap64 (failureCount cb + 1) →
  state (RecordFailure cb w).1 = StateOpen.
Proof.
  intros Hs Hge. unfold RecordFailure. simpl. rewrite Hs.
  destruct (Z.leb_spec (failureThreshold cb) (wrap64 (failureCount cb + 1)));
    [| lia].
  apply transitionTo_state.
Qed.

Lemma RecordFailure_HalfOpen cb w :
  state cb = StateHalfOpen → state (RecordFailure cb w).1 = StateOpen.
Proof.
  intros Hs. unfold RecordFailure. simpl. rewrite Hs. apply transitionTo_state.
Qed.

Lemma RecordFailure_Open cb w :
  state cb = StateOpen → state (RecordFailure cb w).1 = StateOpen.
Proof. intros Hs. unfold RecordFailure. simpl. by rewrite Hs. Qed.

Lemma RecordSuccess_HalfOpen_below cb w :
  state cb = StateHalfOpen →
  wrap64 (successCount cb + 1) < successThreshold cb →
  RecordSuccess cb w = (set_successCount (wrap64 (successCount cb + 1)) cb, w).
Proof.
  intros Hs Hlt. unfold RecordSuccess. rewrite Hs. simpl.
  destruct (Z.leb_spec (successThreshold cb) (wrap64 (successCount cb + 1)));
    [lia | done].
Qed.

Lemma RecordSuccess_Closed cb w :
  state cb = StateClosed → RecordSuccess cb w = (set_failureCount 0 cb, w).
Proof. intros Hs. unfold RecordSuccess. by rewrite Hs. Qed.

Lemma RecordSuccess_Open cb w :
  state cb = StateOpen → RecordSuccess cb w = (cb, w).
Proof. intros Hs. unfold RecordSuccess. by rewrite Hs. Qed.

(** Failures below the threshold only count. *)
Lemma failures_below_threshold n : ∀ cb w,
  state cb = StateClosed → 0 <= failureCount cb →
  failureCount cb + Z.of_nat n < failureThreshold cb <= maxInt64 →
  let cb' := (times n RecordFailure cb w).1 in
  state cb' = StateClosed ∧
  failureCount cb' = failureCount cb + Z.of_nat n ∧
  failureThreshold cb' = failureThreshold cb.
Proof.
  induction n as [| n IH]; intros cb w Hs H0 Hlt; simpl.
  - repeat split; [done | lia].
  - assert (Hw : wrap64 (failureCount cb + 1) = failureCount cb + 1).
    { apply wrap64_small. unfold minInt64, maxInt64 in *. lia. }
    rewrite RecordFailure_Closed_below by (rewrite ?Hw; lia || done).
    rewrite Hw.
    edestruct (IH (set_lastFailure (clock w (reads w))
                    (set_failureCount (failureCount cb + 1) cb))
                 (time_Now w).2) as (H1 & H2 & H3); simpl; try done; try lia.
    simpl in H2, H3. repeat split; [done | lia | done].
Qed.

Lemma times_snoc n op : ∀ cb w,
  times (S n) op cb w =
  op (times n op cb w).1 (times n op cb w).2.
Proof.
  induction n as [| n IH]; intros cb w.
  - simpl. by destruct (op cb w).
  - change (times (S (S n)) op cb w)
      with (let '(cb1, w1) := op cb w in times (S n) op cb1 w1).
    destruct (op cb w) as [cb1 w1] eqn:Hop. rewrite IH.
    simpl. by rewrite Hop.
Qed.

Lemma timed_out_iff cb now :
  0 < timeout cb <= maxInt64 →
  timed_out cb now ↔ lastFailure cb + timeout cb <= now.
Proof.
  intros H. unfold timed_out.
  rewrite <- !Z.leb_le, time_Sub_ge; [done |]. unfold minInt64. lia.
Qed.

Lemma AllowRequest_Open_early cb w :
  state cb = StateOpen → ¬ timed_out cb (clock w (reads w)) →
  AllowRequest cb w = (false, cb, (time_Now w).2).
Proof.
  unfold timed_out. intros Hs Hlt. unfold AllowRequest. rewrite Hs. simpl.
  destruct (Z.leb_spec (timeout cb)
              (time_Sub (clock w (reads w)) (lastFailure cb))); [lia | done].
Qed.

Lemma AllowRequest_Open_late cb w :
  state cb = StateOpen → timed_out cb (clock w (reads w)) →
  (AllowRequest cb w).1.1 = true ∧
  (AllowRequest cb w).1.2 = (transitionTo StateHalfOpen cb (time_Now w).2).1 ∧
  state (AllowRequest cb w).1.2 = StateHalfOpen.
Proof.
  unfold timed_out. intros Hs Hge. unfold AllowRequest. rewrite Hs. simpl.
  destruct (Z.leb_spec (timeout cb)
              (time_Sub (clock w (reads w)) (lastFailure cb))); [| lia].
  pose proof (transitionTo_state StateHalfOpen cb (time_Now w).2) as Ht.
  unfold time_Now in Ht. simpl in Ht.
  destruct (transitionTo StateHalfOpen cb _) as [cb1 w2]. by simpl in *.
Qed.

Lemma AllowRequest_not_Open cb w :
  state cb ≠ StateOpen → AllowRequest cb w = (true, cb, w).
Proof. intros Hs. unfold AllowRequest. by destruct (state cb). Qed.

(** While every reading is early, an open breaker refuses and stays as it
    is; each refusal takes one reading of the clock. *)
Lemma AllowRequest_times_early n : ∀ cb w,
  state cb = StateOpen →
  (∀ k, (k < n)%nat → ¬ timed_out cb (clock w (reads w + k))) →
  AllowRequest_times n cb w =
    (replicate n false, cb, mkWorld (clock w) (reads w + n) (spawned w)).
Proof.
  induction n as [| n IH]; intros cb w Hs Hearly; simpl.
  - rewrite Nat.add_0_r. by destruct w.
  - rewrite AllowRequest_Open_early; [| done |].
    2:{ specialize (Hearly 0%nat). rewrite Nat.add_0_r in Hearly.
        apply Hearly. lia. }
    rewrite IH; [| done |].
    + simpl. do 3 f_equal. lia.
    + intros k Hk. simpl. specialize (Hearly (S k)).
      replace (reads w + S k)%nat with (S (reads w + k)) in Hearly by lia.
      apply Hearly. lia.
Qed.

(** ** Properties of the breaker *)

(** C1. A closed breaker whose failure counter is 0 (a new one, or one that
    has just recorded a success) and whose failure threshold is F is open
    after exactly F consecutive [RecordFailure] calls, and still closed
    after F - 1 of them. *)
Theorem breaker_threshold cb w :
  state cb = StateClosed → failureCount cb = 0 →
  0 < failureThreshold cb <= maxInt64 →
  state (times (Z.to_nat (failureThreshold cb)) RecordFailure cb w).1
    = StateOpen ∧
  state (times (Z.to_nat (failureThreshold cb) - 1) RecordFailure cb w).1
    = StateClosed.
Proof.
  intros Hs H0 HF.
  set (n := (Z.to_nat (failureThreshold cb) - 1)%nat).
  assert (Hn : Z.to_nat (failureThreshold cb) = S n) by lia.
  destruct (failures_below_threshold n cb w) as (Hst & Hfc & Hth);
    [done | lia | lia |].
  split; [| done].
  rewrite Hn, times_snoc.
  apply RecordFailure_Closed_reached; [done |].
  rewrite Hfc, Hth, wrap64_small; unfold minInt64, maxInt64 in *; lia.
Qed.

Lemma breaker_threshold_witness :
  state (times 3 RecordFailure sample_new.1 sample_new.2).1 = StateOpen ∧
  state (times 2 RecordFailure sample_new.1 sample_new.2).1 = StateClosed.
Proof.
  apply (breaker_threshold sample_new.1 sample_new.2);
    [reflexivity | reflexivity | vm_compute; split; [reflexivity | discriminate]].
Defined.

(** C2. An open breaker with last failure at T and open-timeout D refuses
    every request whose clock reading is before T + D and stays as it is;
    the first request at or after T + D is let through and leaves the
    breaker half-open.  A closed and a half-open breaker let every request
    through, unchanged. *)
Theorem open_timeout_gate cb w n :
  0 < timeout cb <= maxInt64 →
  (state cb = StateOpen →
   (∀ k, (k < n)%nat → clock w (reads w + k) < lastFailure cb + timeout cb) →
   let r := AllowRequest_times n cb w in
   r.1.1 = replicate n false ∧ r.1.2 = cb ∧
   (lastFailure cb + timeout cb <= clock w (reads w + n) →
    (AllowRequest r.1.2 r.2).1.1 = true ∧
    state (AllowRequest r.1.2 r.2).1.2 = StateHalfOpen)) ∧
  (state cb = StateClosed → AllowRequest cb w = (true, cb, w)) ∧
  (state cb = StateHalfOpen → AllowRequest cb w = (true, cb, w)).
Proof.
  intros Hto. split; [| split].
  - intros Hs Hearly r. subst r.
    rewrite AllowRequest_times_early; [| done |].
    + simpl. split; [done |]. split; [done |]. intros Hlate.
      set (w1 := mkWorld (clock w) (reads w + n) (spawned w)).
      destruct (AllowRequest_Open_late cb w1) as (Hok & _ & Hst); [done | |].
      * apply timed_out_iff; done.
      * done.
    + intros k Hk Hout. apply timed_out_iff in Hout; [| done].
      specialize (Hearly k Hk). lia.
  - intros Hs. apply AllowRequest_not_Open. by rewrite Hs.
  - intros Hs. apply AllowRequest_not_Open. by rewrite Hs.
Qed.

Lemma open_timeout_gate_witness :
  state sample_opened.1 = StateOpen ∧
  (let r := AllowRequest_times 1 sample_opened.1 sample_opened.2 in
   r.1.1 = [false] ∧ r.1.2 = sample_opened.1 ∧
   (AllowRequest r.1.2 r.2).1.1 = true ∧
   state (AllowRequest r.1.2 r.2).1.2 = StateHalfOpen).
Proof.
  split; [reflexivity |].
  destruct (open_timeout_gate sample_opened.1 sample_opened.2 1) as [H _].
  { vm_compute. split; [reflexivity | discriminate]. }
  destruct H as (H1 & H2 & H3).
  { reflexivity. }
  { intros k Hk. assert (k = 0%nat) as -> by lia. vm_compute. reflexivity. }
  destruct H3 as [H3 H4].
  { vm_compute. discriminate. }
  exact (conj H1 (conj H2 (conj H3 H4))).
Defined.

(** C3. From the half-open state one [RecordFailure] opens the breaker,
    whatever the success counter holds; in particular after any number of
    successes that stays below the success threshold. *)
Theorem halfopen_fragility cb w k :
  state cb = StateHalfOpen →
  state (RecordFailure cb w).1 = StateOpen ∧
  (0 <= successCount cb →
   successCount cb + Z.of_nat k < successThreshold cb <= maxInt64 →
   let r := times k RecordSuccess cb w in
   state r.1 = StateHalfOpen ∧
   successCount r.1 = successCount cb + Z.of_nat k ∧
   state (RecordFailure r.1 r.2).1 = StateOpen).
Proof.
  intros Hs. split; [by apply RecordFailure_HalfOpen |].
  revert cb w Hs. induction k as [| k IH]; intros cb w Hs H0 Hlt r; subst r.
  - simpl. repeat split; [done | lia | by apply RecordFailure_HalfOpen].
  - assert (Hw : wrap64 (successCount cb + 1) = successCount cb + 1).
    { apply wrap64_small. unfold minInt64, maxInt64 in *. lia. }
    simpl. rewrite RecordSuccess_HalfOpen_below by (rewrite ?Hw; done || lia).
    rewrite Hw.
    destruct (IH (set_successCount (successCount cb + 1) cb) w)
      as (H1 & H2 & H3); simpl; try done; try lia.
    simpl in H2. repeat split; [done | lia | done].
Qed.

Lemma halfopen_fragility_witness :
  state (RecordFailure sample_halfopen sample_world).1 = StateOpen ∧
  state (RecordFailure (times 2 RecordSuccess sample_halfopen sample_world).1
           (times 2 RecordSuccess sample_halfopen sample_world).2).1
    = StateOpen.
Proof.
  destruct (halfopen_fragility sample_halfopen sample_world 2) as [H1 H2];
    [reflexivity |].
  destruct H2 as (_ & _ & H2).
  { vm_compute. discriminate. }
  { vm_compute. split; [reflexivity | discriminate]. }
  exact (conj H1 H2).
Defined.

(** [Execute], case by case. *)
Lemma Execute_refused {E} (fn : E → option error * E) cb w env :
  (AllowRequest cb w).1.1 = false →
  (AllowRequest cb w).1.2 = cb ∧
  Execute fn cb w env = (Some ErrCircuitOpen, cb, (AllowRequest cb w).2, env).
Proof.
  unfold Execute, AllowRequest. destruct (state cb); simpl; try discriminate.
  case_match; [| done].
  destruct (transitionTo _ _ _); simpl. discriminate.
Qed.

Lemma Execute_allowed {E} (fn : E → option error * E) cb w env :
  (AllowRequest cb w).1.1 = true →
  Execute fn cb w env =
    match (fn env).1 with
    | Some e =>
        (Some e,
         (RecordFailure (AllowRequest cb w).1.2 (AllowRequest cb w).2).1,
         (RecordFailure (AllowRequest cb w).1.2 (AllowRequest cb w).2).2,
         (fn env).2)
    | None =>
        (None,
         (RecordSuccess (AllowRequest cb w).1.2 (AllowRequest cb w).2).1,
         (RecordSuccess (AllowRequest cb w).1.2 (AllowRequest cb w).2).2,
         (fn env).2)
    end.
Proof.
  unfold Execute. destruct (AllowRequest cb w) as [[ok cb1] w1]. simpl.
  intros ->. simpl. destruct (fn env) as [[e |] env1]; simpl.
  - by destruct (RecordFailure cb1 w1).
  - by destruct (RecordSuccess cb1 w1).
Qed.

(** C4. [Execute] returns [ErrCircuitOpen] and does not invoke [fn] when
    [AllowRequest] refuses; when it allows, [fn] is invoked exactly once,
    [RecordFailure] follows an error and [RecordSuccess] follows [nil], and
    what [fn] returned is returned unchanged. *)
Theorem Execute_guards_call {E : Type} (fn : E → option error * E)
    (cb : CircuitBreaker) (w : World) (env : E) :
  let a := AllowRequest cb w in
  (a.1.1 = false →
   Execute fn cb w env = (Some ErrCircuitOpen, cb, a.2, env) ∧
   (Execute (counted fn) cb w (env, 0%nat)).2 = (env, 0%nat)) ∧
  (a.1.1 = true →
   (Execute fn cb w env).1.1.1 = (fn env).1 ∧
   (Execute fn cb w env).2 = (fn env).2 ∧
   (Execute (counted fn) cb w (env, 0%nat)).2 = ((fn env).2, 1%nat) ∧
   ((Execute fn cb w env).1.1.2, (Execute fn cb w env).1.2) =
     match (fn env).1 with
     | Some _ => RecordFailure a.1.2 a.2
     | None => RecordSuccess a.1.2 a.2
     end).
Proof.
  intros a. subst a. split.
  - intros Hno. split.
    + by apply Execute_refused.
    + destruct (Execute_refused (counted fn) cb w (env, 0%nat) Hno) as [_ ->].
      done.
  - intros Hyes. rewrite !Execute_allowed by done. simpl.
    destruct (fn env) as [[e |] env1]; simpl.
    + by destruct (RecordFailure _ _).
    + by destruct (RecordSuccess _ _).
Qed.

Lemma Execute_guards_call_witness :
  Execute (λ n : nat, (None, S n)) sample_opened.1 sample_opened.2 7%nat
    = (Some ErrCircuitOpen, sample_opened.1,
       (AllowRequest sample_opened.1 sample_opened.2).2, 7%nat) ∧
  (Execute (λ n : nat, (Some (Errorf "boom"), S n))
     sample_new.1 sample_new.2 7%nat).1.1.1 = Some (Errorf "boom") ∧
  (Execute (counted (λ n : nat, (Some (Errorf "boom"), S n)))
     sample_new.1 sample_new.2 (7%nat, 0%nat)).2 = (8%nat, 1%nat).
Proof.
  destruct (Execute_guards_call (λ n : nat, (None, S n))
              sample_opened.1 sample_opened.2 7%nat) as [[H1 _] _];
    [reflexivity |].
  destruct (Execute_guards_call (λ n : nat, (Some (Errorf "boom"), S n))
              sample_new.1 sample_new.2 7%nat) as [_ (H2 & _ & H3 & _)];
    [reflexivity |].
  exact (conj H1 (conj H2 H3)).
Defined.

Ltac breaker_cases cb :=
  unfold call, Reset, AllowRequest, RecordSuccess, RecordFailure,
    transitionTo, time_Since, time_Now, go;
  destruct cb as [nm st fc sc lf lsc ft sth to cbk]; simpl;
  destruct st; simpl; repeat (case_match; simpl in *; simplify_eq);
  simpl; try done.

(** Whenever a method changes the state, both counters are 0 afterwards. *)
Lemma call_change_resets_counters m cb w :
  state (call m cb w).1 ≠ state cb →
  failureCount (call m cb w).1 = 0 ∧ successCount (call m cb w).1 = 0.
Proof. destruct m; breaker_cases cb. Qed.

(** Entering a state by a real transition clears the failure counter, and
    no call made in the half-open state raises it again without leaving
    that state. *)
Lemma call_HalfOpen_failureCount m cb w :
  (state cb = StateHalfOpen → failureCount cb = 0) →
  state (call m cb w).1 = StateHalfOpen → failureCount (call m cb w).1 = 0.
Proof.
  intros Hinv. destruct m; simpl.
  - destruct (decide (state cb = StateOpen)) as [Hs | Hs].
    + destruct (decide (timed_out cb (clock w (reads w)))) as [Hout | Hno].
      * destruct (AllowRequest_Open_late cb w Hs Hout) as (_ & Heq & _).
        destruct (AllowRequest cb w) as [[ok cb1] w1]. simpl in *.
        intros _. rewrite Heq. apply transitionTo_counters. by rewrite Hs.
      * rewrite AllowRequest_Open_early by done. simpl. by rewrite Hs.
    + by rewrite AllowRequest_not_Open.
  - destruct (state cb) eqn:Hs.
    + rewrite RecordSuccess_Closed by done. simpl. by rewrite Hs.
    + rewrite RecordSuccess_Open by done. simpl. by rewrite Hs.
    + unfold RecordSuccess. rewrite Hs. simpl. case_match.
      * rewrite transitionTo_state. discriminate.
      * simpl. intros _. by apply Hinv.
  - destruct (state cb) eqn:Hs.
    + unfold RecordFailure. simpl. rewrite Hs. case_match.
      * rewrite transitionTo_state. discriminate.
      * simpl. by rewrite Hs.
    + by rewrite RecordFailure_Open.
    + by rewrite RecordFailure_HalfOpen.
  - unfold Reset.
    pose proof (transitionTo_state StateClosed cb w) as Ht.
    destruct (transitionTo StateClosed cb w) as [cb1 w1]. simpl in *.
    rewrite Ht. discriminate.
Qed.

Lemma reachable_HalfOpen_failureCount cb w :
  reachable cb w → state cb = StateHalfOpen → failureCount cb = 0.
Proof.
  induction 1 as [cfg w | m cb w Hr IH].
  - unfold New. simpl. discriminate.
  - by apply call_HalfOpen_failureCount.
Qed.

(** In the half-open state no method looks at the failure counter: with any
    other value in it, every call answers the same, leaves the same world,
    and leaves the same breaker up to that counter; once the call has left
    the half-open state nothing of the value remains. *)
Lemma HalfOpen_ignores_failureCount m cb w n :
  state cb = StateHalfOpen →
  (AllowRequest (set_failureCount n cb) w).1.1 = (AllowRequest cb w).1.1 ∧
  (call m (set_failureCount n cb) w).2 = (call m cb w).2 ∧
  set_failureCount 0 (call m (set_failureCount n cb) w).1
    = set_failureCount 0 (call m cb w).1 ∧
  (state (call m cb w).1 ≠ StateHalfOpen →
   (call m (set_failureCount n cb) w).1 = (call m cb w).1).
Proof.
  intros Hs. split.
  { unfold AllowRequest. simpl. by rewrite Hs. }
  destruct m; simpl.
  - unfold AllowRequest. simpl. rewrite Hs. simpl. by rewrite Hs.
  - unfold RecordSuccess. simpl. rewrite Hs. simpl.
    case_match; simpl.
    + unfold transitionTo. simpl. rewrite Hs. simpl.
      by destruct (onStateChange cb).
    + by rewrite Hs.
  - unfold RecordFailure. simpl. rewrite Hs.
    unfold transitionTo. simpl. rewrite Hs. simpl.
    by destruct (onStateChange cb).
  - unfold Reset, transitionTo. simpl. rewrite Hs. simpl.
    by destruct (onStateChange cb).
Qed.

Lemma reachable_failures n : ∀ cb w,
  reachable cb w →
  reachable (times n RecordFailure cb w).1 (times n RecordFailure cb w).2.
Proof.
  induction n as [| n IH]; intros cb w Hr; [done |].
  simpl. pose proof (reach_call mRecordFailure cb w Hr) as Hr1.
  simpl in Hr1. destruct (RecordFailure cb w) as [cb1 w1]. by apply IH.
Qed.

Lemma sample_trial_reachable : reachable sample_trial.1 sample_trial.2.
Proof.
  unfold sample_trial. do 2 apply reach_call.
  apply reachable_failures, reach_New.
Qed.

(** C8. A transition to a state other than the current one leaves both
    counters at 0, and so does every change of state that a method makes.
    Hence a breaker that any run has brought to the half-open state holds
    failure counter 0 there, and nothing a half-open breaker does depends on
    the failure counter: failures counted while closed have no influence
    once the breaker is half-open. *)
Theorem transition_resets_counters :
  (∀ s cb w, state cb ≠ s →
     state (transitionTo s cb w).1 = s ∧
     failureCount (transitionTo s cb w).1 = 0 ∧
     successCount (transitionTo s cb w).1 = 0) ∧
  (∀ m cb w, state (call m cb w).1 ≠ state cb →
     failureCount (call m cb w).1 = 0 ∧ successCount (call m cb w).1 = 0) ∧
  (∀ cb w, reachable cb w → state cb = StateHalfOpen → failureCount cb = 0) ∧
  (∀ m cb w n, state cb = StateHalfOpen →
     (AllowRequest (set_failureCount n cb) w).1.1 = (AllowRequest cb w).1.1 ∧
     (call m (set_failureCount n cb) w).2 = (call m cb w).2 ∧
     set_failureCount 0 (call m (set_failureCount n cb) w).1
       = set_failureCount 0 (call m cb w).1 ∧
     (state (call m cb w).1 ≠ StateHalfOpen →
      (call m (set_failureCount n cb) w).1 = (call m cb w).1)).
Proof.
  split; [| split; [| split]].
  - intros s cb w Hne. split; [apply transitionTo_state |].
    by apply transitionTo_counters.
  - apply call_change_resets_counters.
  - apply reachable_HalfOpen_failureCount.
  - intros m cb w n. apply HalfOpen_ignores_failureCount.
Qed.

Lemma transition_resets_counters_witness :
  failureCount
    (transitionTo StateOpen
       (times 2 RecordFailure sample_new.1 sample_new.2).1 sample_world).1 = 0 ∧
  failureCount
    (call mRecordFailure
       (times 2 RecordFailure sample_new.1 sample_new.2).1
       (times 2 RecordFailure sample_new.1 sample_new.2).2).1 = 0 ∧
  failureCount sample_trial.1 = 0 ∧
  (call mRecordFailure (set_failureCount 2 sample_trial.1) sample_trial.2).1
    = (call mRecordFailure sample_trial.1 sample_trial.2).1.
Proof.
  destruct transition_resets_counters as (H1 & Hm & H2 & H3).
  split; [| split; [| split]].
  - apply H1. vm_compute. discriminate.
  - apply (Hm mRecordFailure). vm_compute. discriminate.
  - apply (H2 _ _ sample_trial_reachable). reflexivity.
  - apply (H3 mRecordFailure sample_trial.1 sample_trial.2 2);
      [reflexivity | vm_compute; discriminate].
Defined.

(** C9. A transition to the current state changes nothing.  Any number of
    [RecordSuccess] calls on a closed breaker launch no notification, read
    no clock, and leave the state, [lastStateChange] and the success counter
    as they were; only the failure counter is set to 0, by [RecordSuccess]
    itself. *)
Theorem idempotent_transition cb w n :
  transitionTo (state cb) cb w = (cb, w) ∧
  (state cb = StateClosed →
   times n RecordSuccess cb w =
     (match n with O => cb | S _ => set_failureCount 0 cb end, w) ∧
   state (times n RecordSuccess cb w).1 = StateClosed ∧
   lastStateChange (times n RecordSuccess cb w).1 = lastStateChange cb ∧
   successCount (times n RecordSuccess cb w).1 = successCount cb ∧
   spawned (times n RecordSuccess cb w).2 = spawned w).
Proof.
  split; [apply transitionTo_same |].
  intros Hs.
  assert (Heq : times n RecordSuccess cb w =
    (match n with O => cb | S _ => set_failureCount 0 cb end, w)).
  { revert cb Hs. induction n as [| n IH]; intros cb Hs; [done |].
    simpl. rewrite RecordSuccess_Closed by done.
    rewrite IH by done. by destruct n. }
  rewrite Heq. by destruct n.
Qed.

Lemma idempotent_transition_witness :
  times 5 RecordSuccess sample_new.1 sample_new.2 =
    (set_failureCount 0 sample_new.1, sample_new.2) ∧
  spawned (times 5 RecordSuccess sample_new.1 sample_new.2).2 = [].
Proof.
  destruct (idempotent_transition sample_new.1 sample_new.2 5)
    as [_ (H1 & _ & _ & _ & H2)]; [reflexivity |].
  exact (conj H1 H2).
Defined.

(** C10. [RecordSuccess] on an open breaker changes nothing at all, and
    [RecordFailure] keeps it open: the only calls after which the breaker
    is no longer open are an [AllowRequest] that finds the timeout run out,
    and [Reset]. *)
Theorem open_ignores_success cb w :
  state cb = StateOpen →
  RecordSuccess cb w = (cb, w) ∧
  (∀ m, state (call m cb w).1 ≠ StateOpen →
     (m = mAllowRequest ∧ timed_out cb (clock w (reads w))) ∨ m = mReset).
Proof.
  intros Hs. split; [by apply RecordSuccess_Open |].
  intros [| | |]; simpl; intros Hleft.
  - left. split; [done |].
    destruct (decide (timed_out cb (clock w (reads w)))) as [| Hno];
      [done | exfalso].
    rewrite AllowRequest_Open_early in Hleft by done. by simpl in Hleft.
  - rewrite RecordSuccess_Open in Hleft by done. by simpl in Hleft.
  - by rewrite RecordFailure_Open in Hleft.
  - by right.
Qed.

Lemma open_ignores_success_witness :
  RecordSuccess sample_opened.1 sample_opened.2
    = (sample_opened.1, sample_opened.2).
Proof.
  destruct (open_ignores_success sample_opened.1 sample_opened.2) as [H _];
    [reflexivity |].
  exact H.
Defined.

(** ** The selection scan *)

Lemma loop_bounds fuel : ∀ i s wc ws w,
  0 < wc <= Z.of_nat (length ws) →
  let r := selectWorker_loop fuel i s wc ws w in
  r.1.1.1 ≠ OutOfRange ∧
  length r.1.2 = length ws ∧
  i <= r.1.1.2 <= i + Z.of_nat fuel ∧
  slots_inspected r.1.1.1 r.1.1.2 <= i + Z.of_nat fuel.
Proof.
  induction fuel as [| fuel IH]; intros i s wc ws w Hwc; simpl.
  - repeat split; [done | lia..].
  - set (idx := Z.to_nat (wrap32 (s + i) mod wc)).
    assert (Hidx : (idx < length ws)%nat).
    { pose proof (Z.mod_pos_bound (wrap32 (s + i)) wc). lia. }
    destruct (lookup_lt_is_Some_2 ws idx Hidx) as [worker Hw]. rewrite Hw.
    destruct (Healthy worker).
    + destruct (AllowRequest (CB worker) w) as [[ok cb1] w1].
      destruct ok; simpl.
      * rewrite length_insert. repeat split; [done | lia..].
      * edestruct (IH (i + 1) s wc (<[idx:=set_CB cb1 worker]> ws) w1)
          as (H1 & H2 & H3 & H4).
        { by rewrite length_insert. }
        rewrite length_insert in H2. repeat split; [done | done | lia..].
    + edestruct (IH (i + 1) s wc ws w) as (H1 & H2 & H3 & H4); [done |].
      repeat split; [done | done | lia..].
Qed.

Lemma wrap32_le x : 0 <= x → wrap32 x <= x.
Proof. intros H. unfold wrap32. apply Z.mod_le; lia. Qed.

Lemma selectWorker_unfold g w :
  workers g ≠ [] →
  selectWorker g w =
    (match (selectWorker_scan g w).1.1.1 with
     | Found idx => Selected idx
     | Exhausted => Failed (Errorf "all workers are unavailable")
     | OutOfRange => IndexPanic
     end,
     mkGateway (selectWorker_scan g w).1.2 (wrap32 (workerIndex g + 1)),
     (selectWorker_scan g w).2).
Proof.
  intros Hne. unfold selectWorker, selectWorker_scan.
  destruct (workers g) as [| wk ws] eqn:Hws; [done |].
  change (length (wk :: ws) =? 0)%nat with false. cbv iota.
  destruct (selectWorker_loop _ _ _ _ _ _) as [[[r i] ws1] w1]. simpl.
  by destruct r.
Qed.

(** Indexing the pool never panics, and the scan looks at no more slots
    than the pool has. *)
Lemma selectWorker_scan_bounds g w :
  let r := selectWorker_scan g w in
  r.1.1.1 ≠ OutOfRange ∧
  length r.1.2 = length (workers g) ∧
  0 <= slots_inspected r.1.1.1 r.1.1.2 <= Z.of_nat (length (workers g)).
Proof.
  unfold selectWorker_scan.
  set (wc := wrap32 (Z.of_nat (length (workers g)))).
  pose proof (wrap32_range (Z.of_nat (length (workers g)))) as Hr.
  pose proof (wrap32_le (Z.of_nat (length (workers g)))) as Hle.
  fold wc in Hr, Hle.
  destruct (decide (wc = 0)) as [-> | Hpos].
  - simpl. repeat split; [done | lia..].
  - edestruct (loop_bounds (Z.to_nat wc) 0
                 (wrap32 (wrap32 (workerIndex g + 1) - 1)) wc (workers g) w)
      as (H1 & H2 & H3 & H4); [lia |].
    simpl. repeat split; [done | done | | lia].
    destruct (selectWorker_loop _ _ _ _ _ _) as [[[r i] ws1] w1].
    simpl in *. destruct r; simpl; lia.
Qed.

Lemma set_CB_same wk : set_CB (CB wk) wk = wk.
Proof. by destruct wk. Qed.

Lemma ineligible_later n w wk :
  ineligible (S n) w wk → ineligible n (time_Now w).2 wk.
Proof.
  intros [Hh | [Hs Hearly]]; [by left | right].
  split; [done |]. intros k Hk. simpl.
  specialize (Hearly (S k)).
  replace (reads w + S k)%nat with (S (reads w + k)) in Hearly by lia.
  apply Hearly. lia.
Qed.

Lemma ineligible_fewer n m w wk :
  (m <= n)%nat → ineligible n w wk → ineligible m w wk.
Proof.
  intros Hle [Hh | [Hs Hearly]]; [by left | right].
  split; [done |]. intros k Hk. apply Hearly. lia.
Qed.

(** A scan over ineligible workers runs through all its slots and changes
    no worker; it only reads the clock. *)
Lemma loop_all_ineligible fuel : ∀ i s wc ws w,
  0 < wc <= Z.of_nat (length ws) →
  Forall (ineligible fuel w) ws →
  ∃ w', selectWorker_loop fuel i s wc ws w
          = (Exhausted, i + Z.of_nat fuel, ws, w') ∧
        spawned w' = spawned w.
Proof.
  induction fuel as [| fuel IH]; intros i s wc ws w Hwc Hall.
  - exists w. simpl. split; [| done]. do 3 f_equal. lia.
  - simpl. set (idx := Z.to_nat (wrap32 (s + i) mod wc)).
    assert (Hidx : (idx < length ws)%nat).
    { pose proof (Z.mod_pos_bound (wrap32 (s + i)) wc). lia. }
    destruct (lookup_lt_is_Some_2 ws idx Hidx) as [worker Hw]. rewrite Hw.
    pose proof (Forall_lookup_1 _ _ _ _ Hall Hw) as Hin.
    destruct (Healthy worker) eqn:Hh.
    + destruct Hin as [Hoff | [Hs Hearly]]; [congruence |].
      rewrite AllowRequest_Open_early; [| done |].
      2:{ specialize (Hearly 0%nat). rewrite Nat.add_0_r in Hearly.
          apply Hearly. lia. }
      rewrite set_CB_same, list_insert_id by done.
      destruct (IH (i + 1) s wc ws (time_Now w).2) as (w' & Heq & Hsp);
        [done | |].
      { eapply Forall_impl; [exact Hall |]. intros wk. apply ineligible_later. }
      exists w'. rewrite Heq. split; [| done]. do 3 f_equal. lia.
    + destruct (IH (i + 1) s wc ws w) as (w' & Heq & Hsp); [done | |].
      { eapply Forall_impl; [exact Hall |]. intros wk.
        apply ineligible_fewer. lia. }
      exists w'. rewrite Heq. split; [| done]. do 3 f_equal. lia.
Qed.

Lemma NewGateway_nonempty pool g : NewGateway pool = Some g → workers g ≠ [].
Proof.
  unfold NewGateway. destruct pool as [| wk pool]; simpl; [done |].
  intros [= <-]. done.
Qed.

(** C6. With every worker of the pool ineligible (liveness flag off, or
    breaker open and refusing), [selectWorker] returns no worker and the
    error of a fruitless scan; the cursor has advanced by one (in [uint32])
    and no worker has changed.  The pool is not empty, as [NewGateway]
    ensures. *)
Theorem no_worker_available g w :
  workers g ≠ [] →
  Forall (ineligible (length (workers g)) w) (workers g) →
  (selectWorker g w).1.1 = Failed (Errorf "all workers are unavailable") ∧
  workerIndex (selectWorker g w).1.2 = wrap32 (workerIndex g + 1) ∧
  workers (selectWorker g w).1.2 = workers g ∧
  spawned (selectWorker g w).2 = spawned w.
Proof.
  intros Hne Hall. rewrite selectWorker_unfold by done. simpl.
  unfold selectWorker_scan.
  set (wc := wrap32 (Z.of_nat (length (workers g)))).
  pose proof (wrap32_range (Z.of_nat (length (workers g)))) as Hr.
  pose proof (wrap32_le (Z.of_nat (length (workers g)))) as Hle.
  fold wc in Hr, Hle.
  destruct (decide (wc = 0)) as [-> | Hpos]; [done |].
  destruct (loop_all_ineligible (Z.to_nat wc) 0
              (wrap32 (wrap32 (workerIndex g + 1) - 1)) wc (workers g) w)
    as (w' & -> & Hsp); [lia | | done].
  eapply Forall_impl; [exact Hall |]. intros wk. apply ineligible_fewer. lia.
Qed.

Lemma no_worker_available_witness :
  (selectWorker sample_down sample_world).1.1
    = Failed (Errorf "all workers are unavailable") ∧
  workerIndex (selectWorker sample_down sample_world).1.2 = 8.
Proof.
  destruct (no_worker_available sample_down sample_world)
    as (H1 & H2 & _); [discriminate | | exact (conj H1 H2)].
  constructor; [by left |].
  constructor; [| constructor].
  right. split; [reflexivity |].
  intros k Hk. simpl in Hk.
  assert (k = 0%nat ∨ k = 1%nat) as [-> | ->] by lia;
    vm_compute; intros H; apply H; reflexivity.
Defined.

(** ** Rotation over an eligible pool *)

Lemma wrap32_pred_succ c : 0 <= c < 2 ^ 32 → wrap32 (wrap32 (c + 1) - 1) = c.
Proof.
  intros Hc. unfold wrap32.
  destruct (decide (c + 1 = 2 ^ 32)) as [Heq | Hne].
  - rewrite Heq, Z.mod_same by lia.
    replace c with (2 ^ 32 - 1) by lia. reflexivity.
  - rewrite (Z.mod_small (c + 1)) by lia.
    replace (c + 1 - 1) with c by lia. apply Z.mod_small. lia.
Qed.

Lemma time_Sub_mono t t' u : t <= t' → time_Sub t u <= time_Sub t' u.
Proof. unfold time_Sub. lia. Qed.

Lemma permits_later cb t t' : t <= t' → permits cb t → permits cb t'.
Proof.
  unfold permits, timed_out. intros Hle Hp Hs.
  pose proof (time_Sub_mono t t' (lastFailure cb) Hle). specialize (Hp Hs). lia.
Qed.

(** A permitting breaker lets the request through and is not open
    afterwards; the clock is only read. *)
Lemma AllowRequest_permits cb w :
  permits cb (clock w (reads w)) →
  ∃ cb1 w1, AllowRequest cb w = (true, cb1, w1) ∧
            state cb1 ≠ StateOpen ∧
            clock w1 = clock w ∧ (reads w <= reads w1)%nat.
Proof.
  intros Hp. destruct (decide (state cb = StateOpen)) as [Hs | Hs].
  - specialize (Hp Hs). unfold timed_out in Hp.
    unfold AllowRequest, transitionTo. rewrite Hs. simpl.
    destruct (Z.leb_spec (timeout cb)
                (time_Sub (clock w (reads w)) (lastFailure cb))); [| lia].
    destruct (onStateChange cb); eexists _, _; (split; [done |]);
      simpl; repeat split; (done || lia).
  - exists cb, w. by rewrite AllowRequest_not_Open.
Qed.

Lemma eligible_later w w1 wk :
  monotone (clock w) → clock w1 = clock w → (reads w <= reads w1)%nat →
  eligible w wk → eligible w1 wk.
Proof.
  intros Hmono Hclk Hr [Hh Hp]. split; [done |].
  rewrite Hclk. eapply permits_later; [| exact Hp]. by apply Hmono.
Qed.

(** One selection from a pool whose workers are all eligible: the worker
    at the cursor's current value (modulo the pool size) is taken at the
    first slot, and all workers remain eligible. *)
Lemma selectWorker_all_eligible g w :
  workers g ≠ [] → Z.of_nat (length (workers g)) < 2 ^ 32 →
  0 <= workerIndex g < 2 ^ 32 →
  monotone (clock w) → Forall (eligible w) (workers g) →
  ∃ g1 w1,
    selectWorker g w =
      (Selected (Z.to_nat (workerIndex g mod Z.of_nat (length (workers g)))),
       g1, w1) ∧
    (selectWorker_scan g w).1.1.2 = 0 ∧
    workerIndex g1 = wrap32 (workerIndex g + 1) ∧
    length (workers g1) = length (workers g) ∧
    clock w1 = clock w ∧ Forall (eligible w1) (workers g1).
Proof.
  intros Hne Hlen Hc Hmono Hall.
  rewrite selectWorker_unfold by done. unfold selectWorker_scan.
  rewrite wrap32_pred_succ by done.
  assert (Hpos : (0 < length (workers g))%nat).
  { destruct (workers g); [done | simpl; lia]. }
  rewrite (wrap32_small (Z.of_nat (length (workers g)))) by lia.
  set (N := Z.of_nat (length (workers g))) in *.
  destruct (Z.to_nat N) as [| fuel] eqn:Hfuel; [lia |].
  simpl. rewrite Z.add_0_r, wrap32_small by done.
  set (idx := Z.to_nat (workerIndex g mod N)).
  assert (Hidx : (idx < length (workers g))%nat).
  { pose proof (Z.mod_pos_bound (workerIndex g) N). lia. }
  destruct (lookup_lt_is_Some_2 _ idx Hidx) as [worker Hw]. rewrite Hw.
  destruct (Forall_lookup_1 _ _ _ _ Hall Hw) as [Hh Hp]. rewrite Hh.
  destruct (AllowRequest_permits _ _ Hp) as (cb1 & w1 & -> & Hs1 & Hclk & Hr).
  simpl. eexists _, _. split; [done |]. simpl.
  rewrite length_insert. repeat split; [done |].
  apply Forall_insert.
  - eapply Forall_impl; [exact Hall |]. intros wk. by apply eligible_later.
  - split; [done |]. simpl. by intros ?.
Qed.

Lemma selectWorker_times_eligible n : ∀ g w,
  workers g ≠ [] → Z.of_nat (length (workers g)) < 2 ^ 32 →
  0 <= workerIndex g < 2 ^ 32 → workerIndex g + Z.of_nat n <= 2 ^ 32 →
  monotone (clock w) → Forall (eligible w) (workers g) →
  (selectWorker_times n g w).1.1
    = (λ k, Selected (Z.to_nat ((workerIndex g + Z.of_nat k)
                                  mod Z.of_nat (length (workers g)))))
        <$> seq 0 n ∧
  workerIndex (selectWorker_times n g w).1.2
    = wrap32 (workerIndex g + Z.of_nat n).
Proof.
  induction n as [| n IH]; intros g w Hne Hlen Hc Hcn Hmono Hall.
  - simpl. split; [done |]. rewrite Z.add_0_r, wrap32_small; lia.
  - destruct (selectWorker_all_eligible g w)
      as (g1 & w1 & Hsel & _ & Hidx & Hlen1 & Hclk & Hall1); try done.
    simpl. rewrite Hsel.
    assert (Hne1 : workers g1 ≠ []).
    { intros Hnil. rewrite Hnil in Hlen1. destruct (workers g); done. }
    assert (Hc1 : workerIndex g1 + Z.of_nat n <= 2 ^ 32).
    { rewrite Hidx. destruct (decide (workerIndex g + 1 = 2 ^ 32)) as [He | He].
      - unfold wrap32. rewrite He, Z.mod_same; lia.
      - rewrite wrap32_small; lia. }
    destruct (IH g1 w1) as [Hres Hfin]; try done.
    { by rewrite Hlen1. }
    { rewrite Hidx. apply wrap32_range. }
    { by rewrite Hclk. }
    destruct (selectWorker_times n g1 w1) as [[rs g2] w2]. simpl in *.
    split.
    + rewrite Z.add_0_r. f_equal. rewrite Hres, Hlen1, <- fmap_S_seq.
      rewrite <- list_fmap_compose. apply list_fmap_ext.
      intros j k Hk. simpl.
      apply lookup_seq in Hk as [-> Hk].
      rewrite Hidx, wrap32_small by lia. do 3 f_equal. lia.
    + rewrite Hfin, Hidx. unfold wrap32.
      rewrite Zplus_mod_idemp_l. f_equal. lia.
Qed.

(** Taking the slots of a pool in rotation meets each slot once. *)
Lemma rotation_Permutation (c : Z) (n : nat) :
  (λ k, Z.to_nat ((c + Z.of_nat k) mod Z.of_nat n)) <$> seq 0 n ≡ₚ seq 0 n.
Proof.
  destruct n as [| n']; [done |]. set (n := S n').
  apply submseteq_length_Permutation; [| by rewrite length_fmap].
  apply NoDup_submseteq.
  - apply NoDup_fmap_2_strong; [| apply NoDup_seq].
    intros j k Hj Hk Heq.
    apply elem_of_seq in Hj, Hk.
    pose proof (Z.mod_pos_bound (c + Z.of_nat j) (Z.of_nat n)).
    pose proof (Z.mod_pos_bound (c + Z.of_nat k) (Z.of_nat n)).
    apply Z2Nat.inj in Heq; [| lia..].
    pose proof (Z.div_mod (c + Z.of_nat j) (Z.of_nat n)).
    pose proof (Z.div_mod (c + Z.of_nat k) (Z.of_nat n)).
    assert ((c + Z.of_nat j) / Z.of_nat n = (c + Z.of_nat k) / Z.of_nat n)
      by nia.
    nia.
  - intros x Hx. apply list_elem_of_fmap in Hx as (k & -> & Hk).
    apply elem_of_seq.
    pose proof (Z.mod_pos_bound (c + Z.of_nat k) (Z.of_nat n)). lia.
Qed.

(** Over an eligible pool the rotation starts at the cursor's current
    value, not at the incremented one. *)
Lemma round_robin_start_counterexample :
  Forall (eligible sample_world) (workers sample_pool) ∧
  (selectWorker_times 3 sample_pool sample_world).1.1
    = [Selected 0; Selected 1; Selected 2] ∧
  rotation_from_incremented (workerIndex sample_pool) 3
    = [Selected 1; Selected 2; Selected 0] ∧
  (selectWorker_times 3 sample_pool sample_world).1.1
    ≠ rotation_from_incremented (workerIndex sample_pool) 3.
Proof.
  split; [| split; [| split]].
  - repeat constructor; intros Hs; vm_compute in Hs; discriminate.
  - vm_compute. reflexivity.
  - vm_compute. reflexivity.
  - vm_compute. discriminate.
Qed.

(** When the cursor wraps around, the rotation is broken unless the pool
    size divides [2 ^ 32]: here worker 0 is taken twice in a row. *)
Example rotation_across_wraparound :
  (selectWorker_times 3
     (mkGateway (workers sample_pool) (2 ^ 32 - 2)) sample_world).1.1
    = [Selected 2; Selected 0; Selected 0].
Proof. vm_compute. reflexivity. Qed.

Lemma sample_clock_monotone : monotone sample_clock.
Proof. intros j k Hjk. unfold sample_clock, Second. lia. Qed.

(** C5 (as the code has it). For a pool of N workers that are all eligible,
    with a monotone clock and a cursor that does not wrap around during the
    N calls, N consecutive [selectWorker] calls take the workers in pool
    order starting from the cursor's value before the first increment, each
    worker exactly once.  Every call on any pool advances the cursor by one
    and looks at no more than N slots. *)
Theorem round_robin_fairness g w :
  workers g ≠ [] → Z.of_nat (length (workers g)) < 2 ^ 32 →
  0 <= workerIndex g →
  workerIndex g + Z.of_nat (length (workers g)) <= 2 ^ 32 →
  monotone (clock w) → Forall (eligible w) (workers g) →
  (selectWorker_times (length (workers g)) g w).1.1
    = rotation_from_current (workerIndex g) (length (workers g)) ∧
  (∃ idxs, (selectWorker_times (length (workers g)) g w).1.1
             = Selected <$> idxs ∧
           idxs ≡ₚ seq 0 (length (workers g))) ∧
  workerIndex (selectWorker_times (length (workers g)) g w).1.2
    = wrap32 (workerIndex g + Z.of_nat (length (workers g))) ∧
  (∀ g' w', workers g' ≠ [] →
     workerIndex (selectWorker g' w').1.2 = wrap32 (workerIndex g' + 1) ∧
     (selectWorker g' w').1.1 ≠ IndexPanic ∧
     0 <= slots_inspected (selectWorker_scan g' w').1.1.1
            (selectWorker_scan g' w').1.1.2
       <= Z.of_nat (length (workers g'))).
Proof.
  intros Hne Hlen Hc0 HcN Hmono Hall.
  assert (Hpos : (0 < length (workers g))%nat).
  { destruct (workers g); [done | simpl; lia]. }
  destruct (selectWorker_times_eligible (length (workers g)) g w)
    as [Hres Hfin]; try done; [lia |].
  split; [exact Hres |]. split; [| split; [exact Hfin |]].
  - exists ((λ k, Z.to_nat ((workerIndex g + Z.of_nat k)
                             mod Z.of_nat (length (workers g))))
            <$> seq 0 (length (workers g))).
    split; [| apply rotation_Permutation].
    rewrite Hres, <- list_fmap_compose. done.
  - intros g' w' Hne'. rewrite selectWorker_unfold by done. simpl.
    destruct (selectWorker_scan_bounds g' w') as (Hp & _ & Hs).
    split; [done |]. split; [| done].
    by destruct ((selectWorker_scan g' w').1.1.1).
Qed.

Lemma round_robin_fairness_witness :
  (selectWorker_times 3 sample_pool sample_world).1.1
    = rotation_from_current 0 3 ∧
  workerIndex (selectWorker_times 3 sample_pool sample_world).1.2 = wrap32 3.
Proof.
  destruct (round_robin_fairness sample_pool sample_world)
    as (H1 & _ & H2 & _).
  - discriminate.
  - reflexivity.
  - discriminate.
  - vm_compute. discriminate.
  - apply sample_clock_monotone.
  - repeat constructor; intros Hs; vm_compute in Hs; discriminate.
  - exact (conj H1 H2).
Defined.

(** ** Dispatch and the reported outcomes *)

Lemma AllowRequest_true_not_Open cb w :
  (AllowRequest cb w).1.1 = true → state (AllowRequest cb w).1.2 ≠ StateOpen.
Proof.
  destruct (decide (state cb = StateOpen)) as [Hs | Hs].
  - destruct (decide (timed_out cb (clock w (reads w)))) as [Hout | Hno].
    + destruct (AllowRequest_Open_late cb w Hs Hout) as (_ & _ & ->). done.
    + rewrite AllowRequest_Open_early by done. done.
  - by rewrite AllowRequest_not_Open.
Qed.

(** The worker that the scan returns has just been let through by its
    breaker, which is therefore not open. *)
Lemma loop_found fuel : ∀ i s wc ws w idx,
  (selectWorker_loop fuel i s wc ws w).1.1.1 = Found idx →
  ∃ wk, (selectWorker_loop fuel i s wc ws w).1.2 !! idx = Some wk ∧
        Healthy wk = true ∧ state (CB wk) ≠ StateOpen.
Proof.
  induction fuel as [| fuel IH]; intros i s wc ws w idx; simpl; [done |].
  set (j := Z.to_nat (wrap32 (s + i) mod wc)).
  destruct (ws !! j) as [worker |] eqn:Hw; [| done].
  destruct (Healthy worker) eqn:Hh; [| apply IH].
  pose proof (AllowRequest_true_not_Open (CB worker) w) as Hno.
  destruct (AllowRequest (CB worker) w) as [[ok cb1] w1].
  destruct ok; [| apply IH].
  simpl. intros [= <-]. exists (set_CB cb1 worker).
  split; [| split; [done | by apply Hno]].
  apply list_lookup_insert_eq. by eapply lookup_lt_Some.
Qed.

Lemma selectWorker_selected g w idx g1 w1 :
  selectWorker g w = (Selected idx, g1, w1) →
  ∃ wk, workers g1 !! idx = Some wk ∧ state (CB wk) ≠ StateOpen.
Proof.
  destruct (decide (workers g = [])) as [He | Hne].
  { unfold selectWorker. rewrite He. done. }
  rewrite selectWorker_unfold by done. intros [= Hr <- <-].
  destruct ((selectWorker_scan g w).1.1.1) as [j | |] eqn:Hscan; [| done..].
  injection Hr as ->.
  destruct (loop_found _ _ _ _ _ _ _ Hscan) as (wk & Hwk & _ & Hs).
  by exists wk.
Qed.

Lemma handlePrompt_racing_nil {E : Type}
    (GenerateText : nat → E → (error + Reply) * E) start g w env :
  handlePrompt_racing GenerateText start [] g w env
    = handlePrompt GenerateText start g w env.
Proof. reflexivity. Qed.

(** What [handlePrompt] does with an error of the remote call. *)
Lemma handlePrompt_remote_error {E : Type}
    (GenerateText : nat → E → (error + Reply) * E) start g w env
    idx g1 w1 cause text env1 :
  selectWorker g w = (Selected idx, g1, w1) →
  GenerateText idx env = (inl (RemoteError cause text), env1) →
  ∃ worker,
    workers g1 !! idx = Some worker ∧
    (handlePrompt GenerateText start g w env).1.1.1
      = Some (mkServed 500
                (BodyError (mkErrorResponse "generation failed" 500 text))
                "500"
                (time_Since start (RecordFailure (CB worker) w1).2).1) ∧
    workers (handlePrompt GenerateText start g w env).1.1.2 !! idx
      = Some (set_CB (RecordFailure (CB worker) w1).1 worker).
Proof.
  intros Hsel Hgen.
  destruct (selectWorker_selected _ _ _ _ _ Hsel) as (worker & Hw & Hs).
  exists worker. split; [done |].
  unfold handlePrompt. rewrite Hsel, Hw.
  pose proof (Execute_allowed (remote_closure GenerateText idx)
                (CB worker) w1 (env, None)) as Hex.
  rewrite AllowRequest_not_Open in Hex by done. simpl in Hex.
  rewrite Hgen in Hex. simpl in Hex. rewrite Hex by done.
  simpl. destruct (RecordFailure (CB worker) w1) as [cb2 w2]. simpl.
  split; [done |].
  apply list_lookup_insert_eq. by eapply lookup_lt_Some.
Qed.

(** The text of a status error shows whether its code is
    [codes_DeadlineExceeded]. *)
Lemma status_error_prefix c desc :
  String.prefix "rpc error: code = DeadlineExceeded "
    (err_Error (status_error c desc))
  = bool_decide (c = codes_DeadlineExceeded).
Proof. by destruct c. Qed.

Lemma outcome_of_failed_call text d :
  outcome_of_reply
    (mkServed 500 (BodyError (mkErrorResponse "generation failed" 500 text))
       "500" d)
  = Some (if String.prefix "rpc error: code = DeadlineExceeded " text
          then outcome_Timeout else outcome_BackendError).
Proof. unfold outcome_of_reply. cbn -[String.prefix]. by destruct (String.prefix _ _). Qed.

Lemma status_error_texts_differ c desc desc' :
  c ≠ codes_DeadlineExceeded →
  err_Error (status_error codes_DeadlineExceeded desc)
    ≠ err_Error (status_error c desc').
Proof.
  intros Hc Heq.
  pose proof (status_error_prefix codes_DeadlineExceeded desc) as H1.
  pose proof (status_error_prefix c desc') as H2.
  rewrite Heq, H2 in H1. rewrite bool_decide_eq_false_2 in H1 by done.
  by rewrite bool_decide_eq_true_2 in H1.
Qed.

(** C7. An error of the remote call is recorded as a failure on the breaker
    of the chosen worker and passed on with its text, so the reply to a call
    whose deadline ran out differs from the reply to every other failed
    call, and a caller can tell the two apart.  A timeout, a backend error,
    an open circuit (the breaker of the chosen worker refuses once other
    requests have tripped it) and a missing worker are four outcomes that
    [handlePrompt] reports and that are told apart by the reply alone. *)
Theorem timeout_is_a_distinct_outcome {E : Type}
    (GenerateText : nat → E → (error + Reply) * E) (start : Time)
    (g : Gateway) (w : World) (env : E) :
  (∀ idx g1 w1 code desc env1,
     selectWorker g w = (Selected idx, g1, w1) →
     GenerateText idx env = (inl (status_error code desc), env1) →
     ∃ worker s,
       workers g1 !! idx = Some worker ∧
       workers (handlePrompt GenerateText start g w env).1.1.2 !! idx
         = Some (set_CB (RecordFailure (CB worker) w1).1 worker) ∧
       (handlePrompt GenerateText start g w env).1.1.1 = Some s ∧
       http_status s = 500 ∧
       http_body s
         = BodyError (mkErrorResponse "generation failed" 500
                        (err_Error (status_error code desc))) ∧
       outcome_of_reply s
         = Some (if decide (code = codes_DeadlineExceeded)
                 then outcome_Timeout else outcome_BackendError)) ∧
  (∀ code desc desc', code ≠ codes_DeadlineExceeded →
     err_Error (status_error codes_DeadlineExceeded desc)
       ≠ err_Error (status_error code desc')) ∧
  (∀ meanwhile idx g1 w1 worker,
     selectWorker g w = (Selected idx, g1, w1) →
     workers g1 !! idx = Some worker →
     (AllowRequest (calls meanwhile (CB worker) w1).1
        (calls meanwhile (CB worker) w1).2).1.1 = false →
     ∃ s,
       (handlePrompt_racing GenerateText start meanwhile g w env).1.1.1
         = Some s ∧
       http_status s = 503 ∧
       http_body s
         = BodyError (mkErrorResponse "worker temporarily unavailable" 503 "") ∧
       outcome_of_reply s = Some outcome_CircuitOpen ∧
       (handlePrompt_racing (counted_remote GenerateText) start meanwhile g w
          (env, 0%nat)).2 = (env, 0%nat)) ∧
  (∀ err g1 w1,
     selectWorker g w = (Failed err, g1, w1) →
     ∃ s,
       (handlePrompt GenerateText start g w env).1.1.1 = Some s ∧
       http_status s = 503 ∧
       http_body s
         = BodyError (mkErrorResponse "no workers available" 503
                        (err_Error err)) ∧
       outcome_of_reply s = Some outcome_NoWorkerAvailable).
Proof.
  split; [| split; [| split]].
  - intros idx g1 w1 code desc env1 Hsel Hgen.
    destruct (handlePrompt_remote_error GenerateText start g w env
                idx g1 w1 _ _ env1 Hsel Hgen) as (worker & Hw & Hr & Hcb).
    exists worker. eexists. split; [done |]. split; [done |].
    split; [exact Hr |]. split; [done |]. split; [done |].
    rewrite outcome_of_failed_call.
    change (String.prefix _ _)
      with (String.prefix "rpc error: code = DeadlineExceeded "
              (err_Error (status_error code desc))).
    rewrite status_error_prefix.
    by case_decide; [rewrite bool_decide_eq_true_2 |
                     rewrite bool_decide_eq_false_2].
  - intros code desc desc'. apply status_error_texts_differ.
  - intros meanwhile idx g1 w1 worker Hsel Hw Hrefuse.
    unfold handlePrompt_racing. rewrite Hsel, Hw.
    destruct (calls meanwhile (CB worker) w1) as [cbm wm]. simpl in Hrefuse.
    destruct (Execute_refused (remote_closure GenerateText idx) cbm wm
                (env, None) Hrefuse) as [_ ->].
    destruct (Execute_refused
                (remote_closure (counted_remote GenerateText) idx) cbm wm
                ((env, 0%nat), None) Hrefuse) as [_ ->].
    simpl. eexists. repeat split.
  - intros err g1 w1 Hsel. unfold handlePrompt. rewrite Hsel. simpl.
    eexists. repeat split.
Qed.

Lemma timeout_is_a_distinct_outcome_witness :
  (∃ s, (handlePrompt (failing_with sample_deadline) 0
           sample_pool sample_world tt).1.1.1 = Some s ∧
        outcome_of_reply s = Some outcome_Timeout) ∧
  (∃ s, (handlePrompt (failing_with sample_backend) 0
           sample_pool sample_world tt).1.1.1 = Some s ∧
        outcome_of_reply s = Some outcome_BackendError) ∧
  (∃ s, (handlePrompt_racing (failing_with sample_deadline) 0
           [mRecordFailure; mRecordFailure; mRecordFailure]
           sample_pool sample_world tt).1.1.1 = Some s ∧
        outcome_of_reply s = Some outcome_CircuitOpen) ∧
  (∃ s, (handlePrompt (failing_with sample_deadline) 0
           sample_down sample_world tt).1.1.1 = Some s ∧
        outcome_of_reply s = Some outcome_NoWorkerAvailable).
Proof.
  assert (Hfst1 : (selectWorker sample_pool sample_world).1.1 = Selected 0)
    by (vm_compute; reflexivity).
  assert (Hfst2 : (selectWorker sample_down sample_world).1.1
                  = Failed (Errorf "all workers are unavailable"))
    by (vm_compute; reflexivity).
  assert (Hsel1 : selectWorker sample_pool sample_world
                  = (Selected 0, (selectWorker sample_pool sample_world).1.2,
                     (selectWorker sample_pool sample_world).2)).
  { rewrite <- Hfst1. by destruct (selectWorker sample_pool sample_world)
      as [[? ?] ?]. }
  assert (Hsel2 : selectWorker sample_down sample_world
                  = (Failed (Errorf "all workers are unavailable"),
                     (selectWorker sample_down sample_world).1.2,
                     (selectWorker sample_down sample_world).2)).
  { rewrite <- Hfst2. by destruct (selectWorker sample_down sample_world)
      as [[? ?] ?]. }
  split; [| split; [| split]].
  - destruct (timeout_is_a_distinct_outcome (failing_with sample_deadline) 0
                sample_pool sample_world tt) as (H & _).
    destruct (H _ _ _ codes_DeadlineExceeded "context deadline exceeded" tt
                Hsel1 eq_refl) as (_ & s & _ & _ & Hs & _ & _ & Ho).
    by exists s.
  - destruct (timeout_is_a_distinct_outcome (failing_with sample_backend) 0
                sample_pool sample_world tt) as (H & _).
    destruct (H _ _ _ codes_Internal
                "failed to generate text: model not found" tt
                Hsel1 eq_refl) as (_ & s & _ & _ & Hs & _ & _ & Ho).
    by exists s.
  - destruct (timeout_is_a_distinct_outcome (failing_with sample_deadline) 0
                sample_pool sample_world tt) as (_ & _ & H & _).
    destruct (H [mRecordFailure; mRecordFailure; mRecordFailure] _ _ _
                (sample_worker "worker-0" sample_new.1 true) Hsel1)
      as (s & Hs & _ & _ & Ho & _).
    + vm_compute. reflexivity.
    + vm_compute. reflexivity.
    + by exists s.
  - destruct (timeout_is_a_distinct_outcome (failing_with sample_deadline) 0
                sample_down sample_world tt) as (_ & _ & _ & H).
    destruct (H _ _ _ Hsel2) as (s & Hs & _ & _ & Ho).
    by exists s.
Defined.

(** ** More on the breaker *)

(** X1. [New] gives a closed breaker with both counters at 0 whose
    thresholds and timeout are positive: a setting that is not positive is
    replaced by 3, 1 and 30 s, a positive one is kept.  No notification is
    launched and the new breaker lets a request through. *)
Theorem New_initial cfg w :
  int_config cfg →
  state (New cfg w).1 = StateClosed ∧
  failureCount (New cfg w).1 = 0 ∧ successCount (New cfg w).1 = 0 ∧
  configured (New cfg w).1 ∧
  failureThreshold (New cfg w).1
    = (if decide (0 < FailureThreshold cfg) then FailureThreshold cfg else 3) ∧
  successThreshold (New cfg w).1
    = (if decide (0 < SuccessThreshold cfg) then SuccessThreshold cfg else 1) ∧
  timeout (New cfg w).1
    = (if decide (0 < Timeout cfg) then Timeout cfg else 30 * Second) ∧
  lastStateChange (New cfg w).1 = clock w (reads w) ∧
  spawned (New cfg w).2 = spawned w ∧
  (∀ w', (AllowRequest (New cfg w).1 w').1.1 = true).
Proof.
  intros (Hf & Hs & Ht). unfold configured, New, maxInt64, Second in *. simpl.
  repeat split; repeat case_match; repeat case_decide; try lia; done.
Qed.

Lemma New_initial_witness :
  failureThreshold
    (New (mkConfig "w" (-4) 0 (5 * Second) None) sample_world).1 = 3 ∧
  successThreshold
    (New (mkConfig "w" (-4) 0 (5 * Second) None) sample_world).1 = 1 ∧
  timeout
    (New (mkConfig "w" (-4) 0 (5 * Second) None) sample_world).1 = 5 * Second.
Proof.
  destruct (New_initial (mkConfig "w" (-4) 0 (5 * Second) None) sample_world)
    as (_ & _ & _ & _ & H1 & H2 & H3 & _).
  { unfold int_config. simpl. unfold maxInt64, Second. lia. }
  exact (conj H1 (conj H2 H3)).
Defined.

Lemma call_keeps_configuration m cb w :
  name (call m cb w).1 = name cb ∧
  failureThreshold (call m cb w).1 = failureThreshold cb ∧
  successThreshold (call m cb w).1 = successThreshold cb ∧
  timeout (call m cb w).1 = timeout cb ∧
  onStateChange (call m cb w).1 = onStateChange cb.
Proof. destruct m; breaker_cases cb. Qed.

(** X2. No method changes the configuration of a breaker: whatever calls
    are made, its name, thresholds, timeout and callback are those that
    [New] took from the configuration. *)
Theorem configuration_is_fixed cfg cb w :
  built_from cfg cb w →
  name cb = Name cfg ∧
  onStateChange cb = OnStateChange cfg ∧
  failureThreshold cb
    = (if decide (0 < FailureThreshold cfg) then FailureThreshold cfg else 3) ∧
  successThreshold cb
    = (if decide (0 < SuccessThreshold cfg) then SuccessThreshold cfg else 1) ∧
  timeout cb
    = (if decide (0 < Timeout cfg) then Timeout cfg else 30 * Second).
Proof.
  induction 1 as [w | m cb w Hb IH].
  - unfold New. simpl. repeat split; repeat case_match; repeat case_decide;
      try lia; done.
  - destruct (call_keeps_configuration m cb w) as (-> & -> & -> & -> & ->).
    exact IH.
Qed.

Lemma sample_trial_built : built_from sample_config sample_trial.1 sample_trial.2.
Proof.
  unfold sample_trial. do 2 apply built_call.
  unfold sample_opened.
  assert (Hn : ∀ n cb w, built_from sample_config cb w →
            built_from sample_config (times n RecordFailure cb w).1
              (times n RecordFailure cb w).2).
  { induction n as [| n IH]; intros cb w Hb; [done |].
    simpl. pose proof (built_call _ mRecordFailure cb w Hb) as Hb1.
    simpl in Hb1. destruct (RecordFailure cb w) as [cb1 w1]. by apply IH. }
  apply Hn. apply built_New.
Qed.

Lemma configuration_is_fixed_witness :
  failureThreshold sample_trial.1 = 3 ∧ timeout sample_trial.1 = 30 * Second.
Proof.
  destruct (configuration_is_fixed _ _ _ sample_trial_built)
    as (_ & _ & H1 & _ & H2).
  exact (conj H1 H2).
Defined.

Lemma call_counters_in_range m cb w :
  0 < failureThreshold cb <= maxInt64 →
  0 < successThreshold cb <= maxInt64 →
  counters_in_range cb → counters_in_range (call m cb w).1.
Proof.
  unfold counters_in_range, maxInt64. intros Hf Hs Hinv.
  assert (Hw : ∀ x, 0 <= x < 2 ^ 63 - 1 → wrap64 (x + 1) = x + 1).
  { intros x Hx. apply wrap64_small. unfold minInt64, maxInt64. lia. }
  destruct m; breaker_cases cb;
    try (rewrite Hw in * by lia); try lia.
Qed.

(** X3. The counters of a breaker built by [New] stay in range whatever
    calls are made: while closed, the failure counter is below the failure
    threshold and the success counter is 0; while open, the success counter
    is 0; while half-open, the failure counter is 0 and the success counter
    is below the success threshold. *)
Theorem counters_stay_in_range cfg cb w :
  int_config cfg → built_from cfg cb w → counters_in_range cb.
Proof.
  intros Hcfg Hb.
  assert (Hc : configured cb ∧ counters_in_range cb).
  { induction Hb as [w | m cb w Hb [IHc IH]].
    - destruct Hcfg as (Hf & Hs & Ht). split.
      + by apply New_configured.
      + unfold counters_in_range, New. simpl. repeat case_match; lia.
    - destruct (call_keeps_configuration m cb w) as (_ & Hf & Hs & Ht & _).
      split.
      + unfold configured. rewrite Hf, Hs, Ht. exact IHc.
      + apply call_counters_in_range; [apply IHc.. | exact IH]. }
  apply Hc.
Qed.

Lemma counters_stay_in_range_witness : counters_in_range sample_trial.1.
Proof.
  apply (counters_stay_in_range sample_config sample_trial.1 sample_trial.2);
    [| apply sample_trial_built].
  unfold int_config. simpl. unfold maxInt64, Second. lia.
Defined.

(** X4. A call launches a notification exactly when it changes the state
    and a callback is set, and then exactly one, carrying the breaker's name,
    the state before and the state after.  [lastStateChange] is rewritten
    exactly when the state changes, with a reading of the clock taken during
    the call. *)
Theorem notification_per_state_change m cb w :
  spawned (call m cb w).2 = notified cb (call m cb w).1 w ∧
  (state (call m cb w).1 = state cb →
   lastStateChange (call m cb w).1 = lastStateChange cb) ∧
  (state (call m cb w).1 ≠ state cb →
   ∃ k, (reads w <= k < reads (call m cb w).2)%nat ∧
        lastStateChange (call m cb w).1 = clock w k) ∧
  clock (call m cb w).2 = clock w.
Proof.
  unfold notified.
  destruct m; breaker_cases cb; repeat split; try done;
    try (intros _; eexists; split; [| reflexivity]; simpl; lia).
Qed.

Lemma notification_per_state_change_witness :
  spawned (call mRecordFailure
             (times 2 RecordFailure sample_new.1 sample_new.2).1
             (times 2 RecordFailure sample_new.1 sample_new.2).2).2
    = [mkStateChange (callback 0) "worker-0" StateClosed StateOpen] ∧
  lastStateChange (call mRecordSuccess sample_new.1 sample_new.2).1
    = lastStateChange sample_new.1.
Proof.
  destruct (notification_per_state_change mRecordFailure
              (times 2 RecordFailure sample_new.1 sample_new.2).1
              (times 2 RecordFailure sample_new.1 sample_new.2).2)
    as (H1 & _).
  destruct (notification_per_state_change mRecordSuccess
              sample_new.1 sample_new.2) as (_ & H2 & _).
  split; [exact H1 | apply H2; reflexivity].
Defined.

(** X5. The only changes of state a method makes: [RecordFailure] opens a
    closed or a half-open breaker, [AllowRequest] takes an open breaker to
    half-open, [RecordSuccess] closes a half-open breaker, [Reset] closes an
    open or a half-open one.  In particular a closed breaker never becomes
    half-open directly and an open one is closed only by [Reset]. *)
Theorem state_changes_follow_edges m cb w :
  state (call m cb w).1 ≠ state cb →
  edge m (state cb) (state (call m cb w).1).
Proof. unfold edge. destruct m; breaker_cases cb. Qed.

Lemma state_changes_follow_edges_witness :
  edge mAllowRequest StateOpen
    (state (call mAllowRequest
              (call mAllowRequest sample_opened.1 sample_opened.2).1
              (call mAllowRequest sample_opened.1 sample_opened.2).2).1).
Proof.
  apply (state_changes_follow_edges mAllowRequest
           (call mAllowRequest sample_opened.1 sample_opened.2).1
           (call mAllowRequest sample_opened.1 sample_opened.2).2).
  vm_compute. discriminate.
Defined.

(** Successes below the threshold only count. *)
Lemma successes_below_threshold n : ∀ cb w,
  state cb = StateHalfOpen → 0 <= successCount cb →
  successCount cb + Z.of_nat n < successThreshold cb <= maxInt64 →
  times n RecordSuccess cb w
    = (set_successCount (successCount cb + Z.of_nat n) cb, w).
Proof.
  induction n as [| n IH]; intros cb w Hs H0 Hlt.
  - simpl. rewrite Z.add_0_r. by destruct cb.
  - assert (Hw : wrap64 (successCount cb + 1) = successCount cb + 1).
    { apply wrap64_small. unfold minInt64, maxInt64 in *. lia. }
    simpl. rewrite RecordSuccess_HalfOpen_below by (rewrite ?Hw; done || lia).
    rewrite Hw, IH; simpl; [| done | lia | lia].
    f_equal. destruct cb; simpl. unfold set_successCount. simpl.
    f_equal. lia.
Qed.

(** X6. A half-open breaker whose success counter is 0 (as it is on
    entering the state) and whose success threshold is S is closed, with
    both counters at 0, after exactly S consecutive [RecordSuccess] calls,
    and still half-open after S - 1 of them. *)
Theorem halfopen_recovery cb w :
  state cb = StateHalfOpen → successCount cb = 0 →
  0 < successThreshold cb <= maxInt64 →
  state (times (Z.to_nat (successThreshold cb)) RecordSuccess cb w).1
    = StateClosed ∧
  failureCount (times (Z.to_nat (successThreshold cb)) RecordSuccess cb w).1
    = 0 ∧
  successCount (times (Z.to_nat (successThreshold cb)) RecordSuccess cb w).1
    = 0 ∧
  state (times (Z.to_nat (successThreshold cb) - 1) RecordSuccess cb w).1
    = StateHalfOpen.
Proof.
  intros Hs H0 HS.
  set (n := (Z.to_nat (successThreshold cb) - 1)%nat).
  assert (Hn : Z.to_nat (successThreshold cb) = S n) by lia.
  pose proof (successes_below_threshold n cb w Hs) as Hbelow.
  rewrite H0 in Hbelow. specialize (Hbelow ltac:(lia) ltac:(lia)).
  rewrite Hn, times_snoc, Hbelow. simpl.
  split; [| split; [| split]]; [| | | done].
  all: unfold RecordSuccess; simpl; rewrite Hs; simpl.
  all: rewrite wrap64_small by (unfold minInt64, maxInt64 in *; lia).
  all: destruct (Z.leb_spec (successThreshold cb) (0 + Z.of_nat n + 1));
    [| lia].
  - apply transitionTo_state.
  - apply transitionTo_counters. simpl. by rewrite Hs.
  - apply transitionTo_counters. simpl. by rewrite Hs.
Qed.

Lemma halfopen_recovery_witness :
  state (times 5 RecordSuccess (set_successCount 0 sample_halfopen)
           sample_world).1 = StateClosed ∧
  state (times 4 RecordSuccess (set_successCount 0 sample_halfopen)
           sample_world).1 = StateHalfOpen.
Proof.
  destruct (halfopen_recovery (set_successCount 0 sample_halfopen) sample_world)
    as (H1 & _ & _ & H2); [reflexivity | reflexivity | |].
  { vm_compute. split; [reflexivity | discriminate]. }
  exact (conj H1 H2).
Defined.

(** X7. [Reset] closes the breaker from any state and leaves both counters
    at 0.  On a breaker that is already closed it reads no clock, launches
    no notification and keeps [lastStateChange]; otherwise it is a state
    change like any other, with its notification. *)
Theorem Reset_closes cb w :
  state (Reset cb w).1 = StateClosed ∧
  failureCount (Reset cb w).1 = 0 ∧ successCount (Reset cb w).1 = 0 ∧
  lastFailure (Reset cb w).1 = lastFailure cb ∧
  (state cb = StateClosed →
   (Reset cb w).2 = w ∧ lastStateChange (Reset cb w).1 = lastStateChange cb) ∧
  (state cb ≠ StateClosed →
   lastStateChange (Reset cb w).1 = clock w (reads w) ∧
   spawned (Reset cb w).2 =
     match onStateChange cb with
     | Some f => mkStateChange f (name cb) (state cb) StateClosed :: spawned w
     | None => spawned w
     end).
Proof. breaker_cases cb; repeat split; try done; intros; by destruct w. Qed.

Lemma Reset_closes_witness :
  state (Reset sample_opened.1 sample_opened.2).1 = StateClosed ∧
  spawned (Reset sample_new.1 sample_new.2).2 = [].
Proof.
  destruct (Reset_closes sample_opened.1 sample_opened.2) as (H1 & _).
  destruct (Reset_closes sample_new.1 sample_new.2)
    as (_ & _ & _ & _ & H2 & _).
  split; [exact H1 |].
  destruct H2 as [H2 _]; [reflexivity |]. rewrite H2. reflexivity.
Defined.

(** X8. The open-state timeout runs from the latest recorded failure, not
    from the moment the breaker opened: a [RecordFailure] on an open breaker
    keeps it open and moves [lastFailure] to the reading t of the clock, and
    every later request whose reading is before t + timeout is refused. *)
Theorem failure_while_open_restarts_timeout cb w w' :
  state cb = StateOpen → 0 < timeout cb <= maxInt64 →
  state (RecordFailure cb w).1 = StateOpen ∧
  lastFailure (RecordFailure cb w).1 = clock w (reads w) ∧
  lastStateChange (RecordFailure cb w).1 = lastStateChange cb ∧
  spawned (RecordFailure cb w).2 = spawned w ∧
  (clock w' (reads w') < clock w (reads w) + timeout cb →
   (AllowRequest (RecordFailure cb w).1 w').1.1 = false).
Proof.
  intros Hs Hto.
  assert (Heq : RecordFailure cb w =
    (set_lastFailure (clock w (reads w))
       (set_failureCount (wrap64 (failureCount cb + 1)) cb), (time_Now w).2)).
  { unfold RecordFailure. simpl. by rewrite Hs. }
  rewrite Heq. simpl. repeat split; [done.. |].
  intros Hearly. rewrite AllowRequest_Open_early; [done | done |].
  intros Hout. apply timed_out_iff in Hout; [| done]. simpl in Hout. lia.
Qed.

Lemma failure_while_open_restarts_timeout_witness :
  lastFailure (RecordFailure sample_opened.1 sample_opened.2).1
    = 1050 * Second ∧
  (AllowRequest (RecordFailure sample_opened.1 sample_opened.2).1
     (RecordFailure sample_opened.1 sample_opened.2).2).1.1 = false.
Proof.
  destruct (failure_while_open_restarts_timeout sample_opened.1
              sample_opened.2 (RecordFailure sample_opened.1 sample_opened.2).2)
    as (_ & H1 & _ & _ & H2); [reflexivity | |].
  { vm_compute. split; [reflexivity | discriminate]. }
  split; [exact H1 |]. apply H2. vm_compute. reflexivity.
Defined.

(** X9. Only consecutive failures count: on a closed breaker with failure
    threshold F, a failures, one success and b more failures, with a and b
    both below F, leave the breaker closed with failure counter b, however
    large a + b is. *)
Theorem success_breaks_failure_streak cb w (a b : nat) :
  state cb = StateClosed → failureCount cb = 0 →
  failureThreshold cb <= maxInt64 →
  Z.of_nat a < failureThreshold cb → Z.of_nat b < failureThreshold cb →
  let r1 := times a RecordFailure cb w in
  let r2 := RecordSuccess r1.1 r1.2 in
  let r3 := times b RecordFailure r2.1 r2.2 in
  state r3.1 = StateClosed ∧ failureCount r3.1 = Z.of_nat b.
Proof.
  intros Hs H0 HF Ha Hb r1 r2 r3.
  destruct (failures_below_threshold a cb w) as (Hs1 & _ & Hth1);
    [done | lia | lia |].
  fold r1 in Hs1, Hth1.
  assert (Hr2 : r2 = (set_failureCount 0 r1.1, r1.2)).
  { subst r2. by rewrite RecordSuccess_Closed. }
  destruct (failures_below_threshold b r2.1 r2.2) as (Hs3 & Hfc3 & _).
  - by rewrite Hr2.
  - by rewrite Hr2.
  - rewrite Hr2. simpl. lia.
  - fold r3 in Hs3, Hfc3. split; [done |]. rewrite Hfc3, Hr2. simpl. lia.
Qed.

Lemma success_breaks_failure_streak_witness :
  state (times 2 RecordFailure
           (RecordSuccess (times 2 RecordFailure sample_new.1 sample_new.2).1
              (times 2 RecordFailure sample_new.1 sample_new.2).2).1
           (RecordSuccess (times 2 RecordFailure sample_new.1 sample_new.2).1
              (times 2 RecordFailure sample_new.1 sample_new.2).2).2).1
    = StateClosed.
Proof.
  destruct (success_breaks_failure_streak sample_new.1 sample_new.2 2 2)
    as [H _]; [reflexivity | reflexivity | | reflexivity | reflexivity |].
  { vm_compute. discriminate. }
  exact H.
Defined.

(** X10. The trial call: [Execute] on an open breaker whose timeout has run
    out invokes [fn].  If [fn] fails the breaker is open again, with counters
    at 0 and [lastFailure] at the reading of the clock taken after the call;
    if [fn] succeeds the breaker is closed when the success threshold is 1
    (or less), and half-open with one success counted otherwise. *)
Theorem Execute_trial {E : Type} (fn : E → option error * E) cb w env :
  state cb = StateOpen → timed_out cb (clock w (reads w)) →
  0 <= successThreshold cb →
  (Execute fn cb w env).1.1.1 = (fn env).1 ∧
  (Execute fn cb w env).2 = (fn env).2 ∧
  match (fn env).1 with
  | Some _ =>
      state (Execute fn cb w env).1.1.2 = StateOpen ∧
      failureCount (Execute fn cb w env).1.1.2 = 0 ∧
      successCount (Execute fn cb w env).1.1.2 = 0 ∧
      lastFailure (Execute fn cb w env).1.1.2 = clock w (reads w + 2)
  | None =>
      if decide (successThreshold cb <= 1) then
        state (Execute fn cb w env).1.1.2 = StateClosed ∧
        successCount (Execute fn cb w env).1.1.2 = 0
      else
        state (Execute fn cb w env).1.1.2 = StateHalfOpen ∧
        successCount (Execute fn cb w env).1.1.2 = 1
  end.
Proof.
  unfold timed_out. intros Hs Hout Hth.
  unfold Execute, AllowRequest, RecordSuccess, RecordFailure, transitionTo,
    time_Since, time_Now, go.
  destruct cb as [nm st fc sc lf lsc ft sth to cbk]. simpl in *. subst st.
  destruct (Z.leb_spec to (time_Sub (clock w (reads w)) lf)); [| lia].
  replace (reads w + 2)%nat with (S (S (reads w))) by lia.
  assert (Hone : wrap64 (0 + 1) = 1) by reflexivity.
  destruct cbk; simpl; destruct (fn env) as [[e |] env1]; simpl;
    rewrite ?Hone; try done;
    case_decide; destruct (Z.leb_spec sth 1); try lia; simpl; done.
Qed.

Lemma Execute_trial_witness :
  state (Execute (λ n : nat, (None, S n))
           (call mAllowRequest sample_opened.1 sample_opened.2).1
           (call mAllowRequest sample_opened.1 sample_opened.2).2
           0%nat).1.1.2 = StateClosed.
Proof.
  destruct (Execute_trial (λ n : nat, (None, S n))
              (call mAllowRequest sample_opened.1 sample_opened.2).1
              (call mAllowRequest sample_opened.1 sample_opened.2).2 0%nat)
    as (_ & _ & H); [reflexivity | | |].
  { vm_compute. discriminate. }
  { vm_compute. discriminate. }
  vm_compute in H. vm_compute. exact (proj1 H).
Defined.

Lemma Execute_Closed_failure {E : Type} (fn : E → option error * E) cb w env e :
  state cb = StateClosed → (fn env).1 = Some e →
  Execute fn cb w env
    = (Some e, (RecordFailure cb w).1, (RecordFailure cb w).2, (fn env).2).
Proof.
  intros Hs He. rewrite Execute_allowed; rewrite AllowRequest_not_Open;
    try (by rewrite Hs); try done.
  simpl. by rewrite He.
Qed.

Lemma Execute_times_failing {E : Type} (fn : E → option error * E)
    (Hfail : ∀ env, is_Some (fn env).1) n : ∀ cb w env,
  state cb = StateClosed → 0 <= failureCount cb →
  failureCount cb + Z.of_nat n <= failureThreshold cb <= maxInt64 →
  (Execute_times n fn cb w env).1.1.2 = (times n RecordFailure cb w).1 ∧
  (Execute_times n fn cb w env).1.2 = (times n RecordFailure cb w).2 ∧
  Forall (λ r, ∃ env', r = (fn env').1) (Execute_times n fn cb w env).1.1.1 ∧
  length (Execute_times n fn cb w env).1.1.1 = n.
Proof.
  induction n as [| n IH]; intros cb w env Hs H0 Hle; [done |].
  destruct (Hfail env) as [e He]. simpl.
  rewrite (Execute_Closed_failure fn cb w env e) by done.
  destruct (RecordFailure cb w) as [cb1 w1] eqn:Hrf. simpl.
  destruct n as [| n'].
  { simpl. repeat split; try done. constructor; [| done]. by exists env. }
  assert (Hw : wrap64 (failureCount cb + 1) = failureCount cb + 1).
  { apply wrap64_small. unfold minInt64, maxInt64 in *. lia. }
  rewrite RecordFailure_Closed_below in Hrf by (rewrite ?Hw; done || lia).
  injection Hrf as <- <-.
  edestruct (IH (set_lastFailure (clock w (reads w))
                  (set_failureCount (wrap64 (failureCount cb + 1)) cb))
               (time_Now w).2 (fn env).2) as (H1 & H2 & H3 & H4);
    [done | simpl; lia | simpl; lia |].
  destruct (Execute_times (S n') fn _ _ _) as [[[errs cb2] w2] env2].
  simpl in *. repeat split; try done; [| lia].
  constructor; [| done]. by exists env.
Qed.

(** X11. Failing fast: F consecutive [Execute] calls whose function fails,
    on a closed breaker with failure counter 0 and failure threshold F, each
    return the function's own error and leave the breaker open; from then on
    every [Execute] whose clock reading is before [lastFailure] + timeout
    returns [ErrCircuitOpen] without invoking its function. *)
Theorem Execute_fails_fast {E : Type} (fn : E → option error * E) cb w env :
  (∀ env, is_Some (fn env).1) →
  state cb = StateClosed → failureCount cb = 0 → configured cb →
  let r := Execute_times (Z.to_nat (failureThreshold cb)) fn cb w env in
  state r.1.1.2 = StateOpen ∧
  length r.1.1.1 = Z.to_nat (failureThreshold cb) ∧
  Forall (λ res, ∃ env', res = (fn env').1) r.1.1.1 ∧
  (∀ (fn' : E → option error * E) w' env',
     clock w' (reads w') < lastFailure r.1.1.2 + timeout cb →
     (Execute fn' r.1.1.2 w' env').1.1.1 = Some ErrCircuitOpen ∧
     (Execute (counted fn') r.1.1.2 w' (env', 0%nat)).2 = (env', 0%nat)).
Proof.
  intros Hfail Hs H0 (HF & _ & HT) r.
  destruct (Execute_times_failing fn Hfail (Z.to_nat (failureThreshold cb))
              cb w env) as (Hcb & _ & Hres & Hlen); [done | lia | lia |].
  fold r in Hcb, Hres, Hlen.
  set (n := (Z.to_nat (failureThreshold cb) - 1)%nat).
  assert (Hn : Z.to_nat (failureThreshold cb) = S n) by lia.
  destruct (failures_below_threshold n cb w) as (Hst & Hfc & Hth);
    [done | lia | lia |].
  assert (Hopen : state r.1.1.2 = StateOpen).
  { rewrite Hcb, Hn, times_snoc.
    apply RecordFailure_Closed_reached; [done |].
    rewrite Hfc, Hth, wrap64_small; unfold minInt64, maxInt64 in *; lia. }
  assert (Hto : timeout r.1.1.2 = timeout cb).
  { rewrite Hcb. clear. generalize (Z.to_nat (failureThreshold cb)).
    intros k. revert cb w. induction k as [| k IH]; intros cb w; [done |].
    simpl. pose proof (call_keeps_configuration mRecordFailure cb w)
      as (_ & _ & _ & Ht & _). simpl in Ht.
    destruct (RecordFailure cb w) as [cb1 w1]. simpl in Ht.
    by rewrite IH. }
  split; [done |]. split; [done |]. split; [done |].
  intros fn' w' env' Hearly.
  assert (Hno : ¬ timed_out r.1.1.2 (clock w' (reads w'))).
  { intros Hout. apply timed_out_iff in Hout; [| rewrite Hto; lia].
    rewrite Hto in Hout. lia. }
  pose proof (AllowRequest_Open_early r.1.1.2 w' Hopen Hno) as Hrefuse.
  split.
  - destruct (Execute_refused fn' r.1.1.2 w' env') as [_ ->];
      [by rewrite Hrefuse | done].
  - destruct (Execute_refused (counted fn') r.1.1.2 w' (env', 0%nat))
      as [_ ->]; [by rewrite Hrefuse | done].
Qed.

Lemma Execute_fails_fast_witness :
  state (Execute_times 3 always_failing sample_new.1 sample_new.2 0%nat).1.1.2
    = StateOpen ∧
  (Execute_times 3 always_failing sample_new.1 sample_new.2 0%nat).2 = 3%nat.
Proof.
  destruct (Execute_fails_fast always_failing sample_new.1 sample_new.2 0%nat)
    as (H1 & _).
  - intros n. by eexists.
  - reflexivity.
  - reflexivity.
  - apply New_configured; vm_compute; discriminate.
  - split; [exact H1 | vm_compute; reflexivity].
Defined.

(** ** More on the selection *)

Lemma AllowRequest_false cb w :
  (AllowRequest cb w).1.1 = false →
  state cb = StateOpen ∧ (AllowRequest cb w).1.2 = cb ∧
  spawned (AllowRequest cb w).2 = spawned w.
Proof.
  destruct (decide (state cb = StateOpen)) as [Hs | Hs].
  - destruct (decide (timed_out cb (clock w (reads w)))) as [Hout | Hno].
    + destruct (AllowRequest_Open_late cb w Hs Hout) as (-> & _). done.
    + by rewrite AllowRequest_Open_early.
  - by rewrite AllowRequest_not_Open.
Qed.

Lemma AllowRequest_true cb w :
  (AllowRequest cb w).1.1 = true →
  state (AllowRequest cb w).1.2 ≠ StateOpen ∧
  ((AllowRequest cb w).1.2 = cb ∨
   (state cb = StateOpen ∧ state (AllowRequest cb w).1.2 = StateHalfOpen)).
Proof.
  intros Hok. split; [by apply AllowRequest_true_not_Open |].
  destruct (decide (state cb = StateOpen)) as [Hs | Hs].
  - right. split; [done |].
    destruct (decide (timed_out cb (clock w (reads w)))) as [Hout | Hno].
    + by destruct (AllowRequest_Open_late cb w Hs Hout) as (_ & _ & ->).
    + rewrite AllowRequest_Open_early in Hok by done. done.
  - left. by rewrite AllowRequest_not_Open.
Qed.

(** The scan, slot by slot: it stops at the first slot whose worker is live
    and let through by its breaker, and changes that worker's breaker only;
    the slots before it hold workers that are passed over, and a scan that
    finds nothing changes no worker and launches nothing. *)
Lemma loop_first_fit fuel : ∀ i s wc ws w,
  0 < wc <= Z.of_nat (length ws) →
  let r := selectWorker_loop fuel i s wc ws w in
  (∀ i', i <= i' < r.1.1.2 →
     ∃ wk, ws !! Z.to_nat (wrap32 (s + i') mod wc) = Some wk ∧ passed_over wk) ∧
  match r.1.1.1 with
  | Found idx =>
      idx = Z.to_nat (wrap32 (s + r.1.1.2) mod wc) ∧
      ∃ wk cb1,
        ws !! idx = Some wk ∧ Healthy wk = true ∧ state cb1 ≠ StateOpen ∧
        (cb1 = CB wk ∨ (state (CB wk) = StateOpen ∧ state cb1 = StateHalfOpen)) ∧
        r.1.2 = <[idx := set_CB cb1 wk]> ws
  | Exhausted =>
      r.1.1.2 = i + Z.of_nat fuel ∧ r.1.2 = ws ∧ spawned r.2 = spawned w
  | OutOfRange => False
  end.
Proof.
  induction fuel as [| fuel IH]; intros i s wc ws w Hwc; simpl.
  - split; [intros i' Hi'; lia |]. repeat split; lia.
  - set (idx := Z.to_nat (wrap32 (s + i) mod wc)).
    assert (Hidx : (idx < length ws)%nat).
    { pose proof (Z.mod_pos_bound (wrap32 (s + i)) wc). lia. }
    destruct (lookup_lt_is_Some_2 ws idx Hidx) as [worker Hw]. rewrite Hw.
    destruct (Healthy worker) eqn:Hh.
    + pose proof (AllowRequest_false (CB worker) w) as Hno.
      pose proof (AllowRequest_true (CB worker) w) as Hyes.
      destruct (AllowRequest (CB worker) w) as [[ok cb1] w1].
      destruct ok; simpl in *.
      * destruct Hyes as [Hs1 Hcb1]; [done |].
        split; [intros i' Hi'; lia |]. split; [done |].
        exists worker, cb1. repeat split; done.
      * destruct Hno as (Hs & -> & Hsp); [done |].
        rewrite set_CB_same, list_insert_id by done.
        specialize (IH (i + 1) s wc ws w1 Hwc). simpl in IH.
        destruct IH as [Hskip Hres]. split.
        -- intros i' Hi'. destruct (decide (i' = i)) as [-> | Hne].
           ++ exists worker. split; [done | by right].
           ++ apply Hskip. lia.
        -- destruct ((selectWorker_loop fuel (i + 1) s wc ws w1).1.1.1);
             [done | | done].
           destruct Hres as (H1 & H2 & H3). repeat split; [lia | done |].
           by rewrite H3.
    + specialize (IH (i + 1) s wc ws w Hwc). simpl in IH.
      destruct IH as [Hskip Hres]. split.
      * intros i' Hi'. destruct (decide (i' = i)) as [-> | Hne].
        -- exists worker. split; [done | by left].
        -- apply Hskip. lia.
      * destruct ((selectWorker_loop fuel (i + 1) s wc ws w).1.1.1);
          [done | | done].
        destruct Hres as (H1 & H2 & H3). repeat split; [lia | done | done].
Qed.

Lemma selectWorker_first_fit g w :
  workers g ≠ [] → Z.of_nat (length (workers g)) < 2 ^ 32 →
  let r := selectWorker_scan g w in
  0 <= r.1.1.2 ∧
  (∀ i', 0 <= i' < r.1.1.2 →
     ∃ wk, workers g !! scan_slot g i' = Some wk ∧ passed_over wk) ∧
  match r.1.1.1 with
  | Found idx =>
      r.1.1.2 < Z.of_nat (length (workers g)) ∧
      idx = scan_slot g r.1.1.2 ∧
      ∃ wk cb1,
        workers g !! idx = Some wk ∧ Healthy wk = true ∧
        state cb1 ≠ StateOpen ∧
        (cb1 = CB wk ∨ (state (CB wk) = StateOpen ∧ state cb1 = StateHalfOpen)) ∧
        r.1.2 = <[idx := set_CB cb1 wk]> (workers g)
  | Exhausted =>
      r.1.1.2 = Z.of_nat (length (workers g)) ∧ r.1.2 = workers g ∧
      spawned r.2 = spawned w
  | OutOfRange => False
  end.
Proof.
  intros Hne Hlen. unfold selectWorker_scan, scan_slot.
  assert (Hpos : (0 < length (workers g))%nat).
  { destruct (workers g); [done | simpl; lia]. }
  rewrite (wrap32_small (Z.of_nat (length (workers g)))) by lia.
  set (N := Z.of_nat (length (workers g))) in *.
  set (s := wrap32 (wrap32 (workerIndex g + 1) - 1)).
  pose proof (loop_first_fit (Z.to_nat N) 0 s N (workers g) w ltac:(lia))
    as [Hskip Hres].
  pose proof (loop_bounds (Z.to_nat N) 0 s N (workers g) w ltac:(lia))
    as (_ & _ & Hi & Hslots).
  simpl in *. split; [lia |]. split; [exact Hskip |].
  destruct ((selectWorker_loop (Z.to_nat N) 0 s N (workers g) w).1.1.1);
    simpl in *; [| | done].
  - split; [lia | done].
  - destruct Hres as (H1 & H2 & H3). repeat split; [lia | done | done].
Qed.

Lemma scan_slot_no_wrap g i :
  workers g ≠ [] → Z.of_nat (length (workers g)) < 2 ^ 32 →
  0 <= workerIndex g →
  workerIndex g + Z.of_nat (length (workers g)) <= 2 ^ 32 →
  0 <= i < Z.of_nat (length (workers g)) →
  scan_slot g i
    = Z.to_nat ((workerIndex g + i) mod Z.of_nat (length (workers g))).
Proof.
  intros Hne Hlen Hc HcN Hi. unfold scan_slot.
  assert (Hpos : (0 < length (workers g))%nat).
  { destruct (workers g); [done | simpl; lia]. }
  rewrite wrap32_pred_succ by lia.
  rewrite (wrap32_small (Z.of_nat _)) by lia.
  rewrite wrap32_small by lia. done.
Qed.

(** X12. First fit: when [selectWorker] returns a worker, that worker is
    live and has been let through by its breaker, which is not open
    afterwards; it sits in the first slot of the scan that is not passed
    over (liveness flag off or breaker open); and in the pool only the
    breaker of that worker may have changed, from open to half-open.  Unless
    the cursor wraps around, iteration i of the scan looks at slot
    (cursor + i) mod N. *)
Theorem selection_takes_first_fit g w idx g1 w1 :
  workers g ≠ [] → Z.of_nat (length (workers g)) < 2 ^ 32 →
  selectWorker g w = (Selected idx, g1, w1) →
  ∃ i wk cb1,
    0 <= i < Z.of_nat (length (workers g)) ∧ idx = scan_slot g i ∧
    (0 <= workerIndex g →
     workerIndex g + Z.of_nat (length (workers g)) <= 2 ^ 32 →
     idx = Z.to_nat ((workerIndex g + i) mod Z.of_nat (length (workers g)))) ∧
    workers g !! idx = Some wk ∧ Healthy wk = true ∧
    state cb1 ≠ StateOpen ∧
    (cb1 = CB wk ∨ (state (CB wk) = StateOpen ∧ state cb1 = StateHalfOpen)) ∧
    workers g1 = <[idx := set_CB cb1 wk]> (workers g) ∧
    (∀ i', 0 <= i' < i →
       ∃ wk', workers g !! scan_slot g i' = Some wk' ∧ passed_over wk').
Proof.
  intros Hne Hlen. rewrite selectWorker_unfold by done.
  destruct (selectWorker_first_fit g w Hne Hlen) as (Hi0 & Hskip & Hres).
  destruct ((selectWorker_scan g w).1.1.1) as [j | |] eqn:Hscan; [| done..].
  intros [= <- <- <-].
  destruct Hres as (Hi & Hj & wk & cb1 & Hw & Hh & Hs & Hcb & Hws).
  exists ((selectWorker_scan g w).1.1.2), wk, cb1.
  repeat split; try done.
  intros Hc HcN. rewrite Hj. by apply scan_slot_no_wrap.
Qed.

Lemma selection_takes_first_fit_witness :
  ∃ i wk cb1,
    0 <= i < 2 ∧ 1%nat = scan_slot (mkGateway (workers sample_down) 8) i ∧
    workers sample_down !! 1%nat = Some wk ∧ Healthy wk = true ∧
    state cb1 = StateHalfOpen.
Proof.
  set (w := mkWorld sample_clock 5 ([] : list StateChange)).
  set (g := mkGateway (workers sample_down) 8).
  assert (Hfst : (selectWorker g w).1.1 = Selected 1)
    by (vm_compute; reflexivity).
  assert (Hsel : selectWorker g w
                 = (Selected 1, (selectWorker g w).1.2, (selectWorker g w).2)).
  { rewrite <- Hfst. by destruct (selectWorker g w) as [[? ?] ?]. }
  destruct (selection_takes_first_fit g w 1 _ _ ltac:(discriminate)
              ltac:(reflexivity) Hsel)
    as (i & wk & cb1 & Hi & Hslot & _ & Hw & Hh & Hs & Hcb & _).
  exists i, wk, cb1. repeat split; try done; try apply Hi.
  destruct Hcb as [-> | [_ Hho]]; [| done].
  vm_compute in Hw. injection Hw as <-. exfalso. apply Hs. reflexivity.
Defined.

(** X13. Unless the cursor wraps around, [selectWorker] fails only when no
    worker fits: if it returns an error, every worker of the pool has its
    liveness flag off or its breaker open, the error is the one of a
    fruitless scan, no worker has changed and no notification was
    launched. *)
Theorem selection_fails_only_without_fit g w e g1 w1 :
  workers g ≠ [] → Z.of_nat (length (workers g)) < 2 ^ 32 →
  0 <= workerIndex g →
  workerIndex g + Z.of_nat (length (workers g)) <= 2 ^ 32 →
  selectWorker g w = (Failed e, g1, w1) →
  e = Errorf "all workers are unavailable" ∧
  workers g1 = workers g ∧ spawned w1 = spawned w ∧
  Forall passed_over (workers g).
Proof.
  intros Hne Hlen Hc HcN. rewrite selectWorker_unfold by done.
  destruct (selectWorker_first_fit g w Hne Hlen) as (Hi0 & Hskip & Hres).
  destruct ((selectWorker_scan g w).1.1.1) as [j | |] eqn:Hscan; [done | | done].
  intros [= <- <- <-]. destruct Hres as (Hexit & Hws & Hsp).
  repeat split; [done.. |].
  apply Forall_lookup. intros j wk Hj.
  pose proof (lookup_lt_Some _ _ _ Hj) as Hlt.
  set (N := Z.of_nat (length (workers g))) in *.
  set (i := (Z.of_nat j - workerIndex g) mod N).
  assert (HiN : 0 <= i < N) by (apply Z.mod_pos_bound; lia).
  destruct (Hskip i ltac:(lia)) as (wk' & Hwk' & Hpass).
  rewrite scan_slot_no_wrap in Hwk' by (done || lia).
  fold N in Hwk'. subst i.
  rewrite Zplus_mod_idemp_r in Hwk'.
  replace (workerIndex g + (Z.of_nat j - workerIndex g)) with (Z.of_nat j)
    in Hwk' by lia.
  rewrite Z.mod_small, Nat2Z.id in Hwk' by lia.
  by simplify_eq.
Qed.

Lemma selection_fails_only_without_fit_witness :
  Forall passed_over (workers sample_down).
Proof.
  assert (Hfst : (selectWorker sample_down sample_world).1.1
                 = Failed (Errorf "all workers are unavailable"))
    by (vm_compute; reflexivity).
  assert (Hsel : selectWorker sample_down sample_world
                 = (Failed (Errorf "all workers are unavailable"),
                    (selectWorker sample_down sample_world).1.2,
                    (selectWorker sample_down sample_world).2)).
  { rewrite <- Hfst.
    by destruct (selectWorker sample_down sample_world) as [[? ?] ?]. }
  apply (selection_fails_only_without_fit sample_down sample_world _ _ _
           ltac:(discriminate) ltac:(reflexivity) ltac:(discriminate)
           ltac:(vm_compute; discriminate) Hsel).
Defined.

Lemma loop_identity fuel : ∀ i s wc ws w,
  identity <$> (selectWorker_loop fuel i s wc ws w).1.2 = identity <$> ws.
Proof.
  induction fuel as [| fuel IH]; intros i s wc ws w; simpl; [done |].
  destruct (ws !! _) as [worker |] eqn:Hw; [| done].
  assert (Hins : ∀ cb, identity <$> <[Z.to_nat (wrap32 (s + i) mod wc)
                                       := set_CB cb worker]> ws
                       = identity <$> ws).
  { intros cb. rewrite list_fmap_insert. apply list_insert_id.
    rewrite list_lookup_fmap, Hw. done. }
  destruct (Healthy worker); [| apply IH].
  destruct (AllowRequest (CB worker) w) as [[ok cb1] w1].
  destruct ok; simpl; [apply Hins |]. rewrite IH. apply Hins.
Qed.

(** X14. Selection never changes who the workers are: after any
    [selectWorker] call the pool has the same length and every worker has
    the ID, the address and the liveness flag it had; the cursor has
    advanced by one unless the pool is empty. *)
Theorem selection_keeps_identities g w :
  identity <$> workers (selectWorker g w).1.2 = identity <$> workers g ∧
  length (workers (selectWorker g w).1.2) = length (workers g) ∧
  workerIndex (selectWorker g w).1.2
    = (if decide (workers g = []) then workerIndex g
       else wrap32 (workerIndex g + 1)).
Proof.
  assert (Hid : identity <$> workers (selectWorker g w).1.2
                = identity <$> workers g ∧
                workerIndex (selectWorker g w).1.2
                = (if decide (workers g = []) then workerIndex g
                   else wrap32 (workerIndex g + 1))).
  { case_decide as He.
    - unfold selectWorker. rewrite He. simpl. by rewrite He.
    - rewrite selectWorker_unfold by done. simpl. split; [| done].
      unfold selectWorker_scan. apply loop_identity. }
  destruct Hid as [Hid Hidx]. split; [done |]. split; [| done].
  by rewrite <- (length_fmap identity), Hid, length_fmap.
Qed.

(** X15. The liveness probe and the breaker are independent gates: a
    round of probes sets each worker's liveness flag from its reply (off on
    an error) and touches no breaker, no identity and not the cursor; and a
    worker whose probe failed or reported unhealthy is not returned by the
    next [selectWorker], whatever its breaker says. *)
Theorem failed_probe_excludes_worker replies g w j :
  CB <$> workers (checkWorkersHealth replies g) = CB <$> workers g ∧
  workerIndex (checkWorkersHealth replies g) = workerIndex g ∧
  (∀ i wk, workers g !! i = Some wk →
     workers (checkWorkersHealth replies g) !! i
       = Some (set_Healthy (default false (replies i)) wk)) ∧
  (replies j = None ∨ replies j = Some false →
   (selectWorker (checkWorkersHealth replies g) w).1.1 ≠ Selected j).
Proof.
  assert (Hlook : ∀ i wk, workers g !! i = Some wk →
            workers (checkWorkersHealth replies g) !! i
              = Some (set_Healthy (default false (replies i)) wk)).
  { intros i wk Hi. unfold checkWorkersHealth. simpl.
    rewrite list_lookup_imap, Hi. simpl. by destruct (replies i). }
  split; [| split; [done | split; [exact Hlook |]]].
  - unfold checkWorkersHealth. simpl. apply list_eq. intros i.
    rewrite !list_lookup_fmap, list_lookup_imap.
    destruct (workers g !! i) as [wk |]; [| done].
    simpl. by destruct (replies i) as [[] |].
  - intros Hbad Hsel.
    set (g' := checkWorkersHealth replies g) in *.
    destruct (decide (workers g' = [])) as [He | Hne].
    { unfold selectWorker in Hsel. rewrite He in Hsel. done. }
    rewrite selectWorker_unfold in Hsel by done. simpl in Hsel.
    destruct ((selectWorker_scan g' w).1.1.1) as [idx | |] eqn:Hscan;
      [| done..].
    injection Hsel as ->.
    destruct (loop_found _ _ _ _ _ _ _ Hscan) as (wk & Hwk & Hh & _).
    pose proof (loop_identity (Z.to_nat (wrap32 (Z.of_nat (length (workers g')))))
                  0 (wrap32 (wrap32 (workerIndex g' + 1) - 1))
                  (wrap32 (Z.of_nat (length (workers g')))) (workers g') w)
      as Hid.
    apply (f_equal (λ l, l !! j)) in Hid.
    rewrite !list_lookup_fmap in Hid.
    unfold selectWorker_scan in Hscan. rewrite Hwk in Hid. simpl in Hid.
    rewrite list_lookup_imap in Hid.
    destruct (workers g !! j) as [wk0 |]; [| done]. simpl in Hid.
    injection Hid as _ _ Hflag.
    destruct Hbad as [Hr | Hr]; rewrite Hr in Hflag; simpl in Hflag;
      congruence.
Qed.

Lemma failed_probe_excludes_worker_witness :
  (selectWorker (checkWorkersHealth (λ i, if (i =? 0)%nat then None else Some true)
                   sample_pool) sample_world).1.1 ≠ Selected 0.
Proof.
  destruct (failed_probe_excludes_worker
              (λ i, if (i =? 0)%nat then None else Some true)
              sample_pool sample_world 0) as (_ & _ & _ & H).
  apply H. by left.
Defined.

Lemma healthy_count ws : ∀ n,
  0 <= n → n + Z.of_nat (length ws) <= maxInt64 →
  foldl (λ n wk, if Healthy wk then wrap64 (n + 1) else n) n ws
    = n + Z.of_nat (length (filter (λ wk, Healthy wk = true) ws)).
Proof.
  induction ws as [| wk ws IH]; intros n Hn Hle; simpl; [lia |].
  simpl in Hle. rewrite filter_cons.
  pose proof (length_filter (λ wk, Healthy wk = true) ws) as Hf.
  case_decide as Hd.
  - rewrite Hd.
    rewrite wrap64_small by (unfold minInt64, maxInt64 in *; lia).
    rewrite IH by lia. simpl. lia.
  - destruct (Healthy wk); [done |]. rewrite IH by lia. lia.
Qed.

(** X16. The "workers" health check of the gateway reports unhealthy
    exactly when no worker has its liveness flag set (so also for an empty
    pool), healthy exactly when the pool is not empty and every flag is
    set, and degraded otherwise, with the message "k/n workers healthy"
    for k set flags among n workers. *)
Theorem workers_check_status g :
  Z.of_nat (length (workers g)) <= maxInt64 →
  let k := length (filter (λ wk, Healthy wk = true) (workers g)) in
  health.Check_Name (workers_check g) = "workers" ∧
  (health.Check_Status (workers_check g) = health.StatusUnhealthy
   ↔ Forall (λ wk, Healthy wk = false) (workers g)) ∧
  (health.Check_Status (workers_check g) = health.StatusHealthy
   ↔ workers g ≠ [] ∧ Forall (λ wk, Healthy wk = true) (workers g)) ∧
  (health.Check_Status (workers_check g) = health.StatusDegraded
   ↔ (0 < k < length (workers g))%nat) ∧
  ((0 < k < length (workers g))%nat →
   health.Check_Message (workers_check g)
     = pretty (Z.of_nat k) +:+ "/" +:+ pretty (Z.of_nat (length (workers g)))
         +:+ " workers healthy").
Proof.
  intros Hlen k. unfold workers_check.
  rewrite healthy_count by lia. rewrite Z.add_0_l. fold k.
  pose proof (length_filter (λ wk, Healthy wk = true) (workers g)) as Hk.
  fold k in Hk.
  assert (Hnone : k = 0%nat ↔ Forall (λ wk, Healthy wk = false) (workers g)).
  { subst k. clear. induction (workers g) as [| wk ws IH]; [done |].
    rewrite filter_cons, Forall_cons. case_decide as Hd; simpl.
    - split; [lia | intros [? _]; congruence].
    - rewrite IH. split; [| by intros [_ ?]].
      intros Hf. split; [by destruct (Healthy wk) | done]. }
  assert (Hall : k = length (workers g)
                 ↔ Forall (λ wk, Healthy wk = true) (workers g)).
  { subst k. clear. induction (workers g) as [| wk ws IH]; [done |].
    pose proof (length_filter (λ wk, Healthy wk = true) ws) as Hf.
    rewrite filter_cons, Forall_cons. case_decide as Hd; simpl.
    - rewrite <- IH. split; [intros ?; split; [done | lia] |].
      intros [_ ->]. done.
    - split; [lia | by intros [? _]]. }
  destruct (Z.eqb_spec (Z.of_nat k) 0) as [H0 | H0]; simpl.
  { split; [done |]. split; [| split; [| split]].
    - split; [intros _; apply Hnone; lia | done].
    - split; [done |]. intros [Hne Hforall]. apply Hall in Hforall.
      destruct (workers g); [done | simpl in *; lia].
    - split; [done | lia].
    - lia. }
  destruct (Z.ltb_spec (Z.of_nat k) (Z.of_nat (length (workers g))))
    as [Hlt | Hge]; simpl.
  - split; [done |]. split; [| split; [| split]].
    + split; [done |]. intros Hf. apply Hnone in Hf. lia.
    + split; [done |]. intros [_ Hf]. apply Hall in Hf. lia.
    + split; [lia | done].
    + done.
  - split; [done |]. split; [| split; [| split]].
    + split; [done |]. intros Hf. apply Hnone in Hf. lia.
    + split; [| done]. intros _. split.
      * intros He. rewrite He in *. simpl in *. lia.
      * apply Hall. lia.
    + split; [done | lia].
    + lia.
Qed.

Lemma workers_check_status_witness :
  health.Check_Status
    (workers_check (checkWorkersHealth
                      (λ i, if (i =? 0)%nat then None else Some true)
                      sample_pool)) = health.StatusDegraded ∧
  health.Check_Message
    (workers_check (checkWorkersHealth
                      (λ i, if (i =? 0)%nat then None else Some true)
                      sample_pool)) = "2/3 workers healthy".
Proof.
  destruct (workers_check_status
              (checkWorkersHealth
                 (λ i, if (i =? 0)%nat then None else Some true) sample_pool))
    as (_ & _ & _ & H1 & H2).
  { vm_compute. discriminate. }
  split.
  - apply H1. simpl. lia.
  - rewrite H2; [reflexivity | simpl; lia].
Defined.

(** ** API keys *)

Lemma cut_space_Some s : ∀ before after,
  cut_space s = Some (before, after) → s = before +:+ " " +:+ after.
Proof.
  induction s as [| c s IH]; intros before after; simpl; [done |].
  case_decide as Hc.
  - intros [= <- <-]. by rewrite Hc.
  - destruct (cut_space s) as [[b a] |]; [| done].
    intros [= <- <-].
    change (String c s = String c (b +:+ " " +:+ a)).
    f_equal. by apply IH.
Qed.

Lemma append_cons c (s t : string) : String c s +:+ t = String c (s +:+ t).
Proof. reflexivity. Qed.

Lemma lower_ascii_space c : lower_ascii c ≠ " "%char → c ≠ " "%char.
Proof. intros Hl ->. by apply Hl. Qed.

Lemma cut_space_app scheme : ∀ token,
  cut_space (strings_ToLower scheme) = None →
  cut_space (scheme +:+ " " +:+ token) = Some (scheme, token).
Proof.
  induction scheme as [| c s IH]; intros token; [done |].
  rewrite append_cons. simpl.
  case_decide as Hl; [done |].
  destruct (cut_space (strings_ToLower s)) as [[b a] |] eqn:Hs; [done |].
  intros _. rewrite decide_False by by apply lower_ascii_space.
  by rewrite IH.
Qed.

(** X17. [validateAPIKey] accepts a header exactly when it is a scheme, one
    space and a token, where the scheme is "bearer" in any letter case and
    the token, taken whole (it may hold spaces), is a key of the map.  An
    empty header, a header without a space and any other scheme are
    refused. *)
Theorem validateAPIKey_accepts (apiKeys : gmap string bool) (authHeader : string) :
  validateAPIKey apiKeys authHeader = true ↔
  ∃ scheme token,
    authHeader = scheme +:+ " " +:+ token ∧
    strings_ToLower scheme = "bearer" ∧
    apiKeys !! token = Some true.
Proof.
  unfold validateAPIKey, strings_SplitN_space_2. split.
  - case_decide as He; [done |].
    destruct (cut_space authHeader) as [[scheme token] |] eqn:Hcut; [| done].
    case_decide as Hs; [| done].
    intros Hk. exists scheme, token. split; [by apply cut_space_Some |].
    split; [done |].
    destruct (apiKeys !! token) as [[] |]; done.
  - intros (scheme & token & -> & Hs & Hk).
    rewrite decide_False by by destruct scheme.
    rewrite cut_space_app by by rewrite Hs.
    cbv iota beta. rewrite decide_True by done. by rewrite Hk.
Qed.

Lemma keyMap_lookup (apiKeys : list string) : ∀ (m : gmap string bool) k,
  foldl (λ keyMap key, if decide (key = "") then keyMap
                       else <[key := true]> keyMap) m apiKeys !! k
  = if decide (k ∈ apiKeys ∧ k ≠ "") then Some true else m !! k.
Proof.
  induction apiKeys as [| key l IH]; intros m k; cbn [foldl].
  - case_decide as Hin; [| done]. destruct Hin as [Hin _].
    by apply elem_of_nil in Hin.
  - rewrite IH.
    assert (Hcons : k ∈ key :: l ∧ k ≠ ""
                    ↔ (k = key ∧ k ≠ "") ∨ (k ∈ l ∧ k ≠ "")).
    { rewrite elem_of_cons. tauto. }
    destruct (decide (k ∈ l ∧ k ≠ "")) as [Hin | Hno].
    + rewrite decide_True; [done |]. apply Hcons. by right.
    + destruct (decide (key = "")) as [-> | Hkey].
      * rewrite decide_False; [done |]. rewrite Hcons.
        intros [[-> Hne] | Hin]; done.
      * destruct (decide (k = key)) as [-> | Hk].
        -- rewrite lookup_insert_eq, decide_True; [done |].
           apply Hcons. by left.
        -- rewrite lookup_insert_ne by done.
           rewrite decide_False; [done |]. rewrite Hcons.
           intros [[-> Hne] | Hin]; done.
Qed.

(** X18. The key map of [NewGateway] holds exactly the non-empty entries of
    the configured list.  Hence "Bearer k" is accepted exactly for the
    non-empty configured keys k (so never for the empty token), and
    [handlePrompt] checks keys exactly when some configured entry is not
    empty: with only empty entries every request is let through. *)
Theorem configured_keys_gate (apiKeys : list string) (authHeader : string) :
  (∀ k, NewGateway_keyMap apiKeys !! k
        = if decide (k ∈ apiKeys ∧ k ≠ "") then Some true else None) ∧
  (∀ k, validateAPIKey (NewGateway_keyMap apiKeys) ("Bearer " +:+ k) = true
        ↔ k ∈ apiKeys ∧ k ≠ "") ∧
  handlePrompt_authorized (NewGateway_keyMap apiKeys) authHeader
    = (if decide (Forall (λ k, k = "") apiKeys) then true
       else validateAPIKey (NewGateway_keyMap apiKeys) authHeader).
Proof.
  assert (Hlook : ∀ k, NewGateway_keyMap apiKeys !! k
            = if decide (k ∈ apiKeys ∧ k ≠ "") then Some true else None).
  { intros k. unfold NewGateway_keyMap. by rewrite keyMap_lookup. }
  split; [exact Hlook |]. split.
  - intros k. rewrite validateAPIKey_accepts. split.
    + intros (scheme & token & Heq & Hs & Hk).
      assert (cut_space ("Bearer " +:+ k) = Some (scheme, token)) as Hcut.
      { rewrite Heq. apply cut_space_app. by rewrite Hs. }
      injection Hcut as <- <-.
      rewrite Hlook in Hk. by case_decide.
    + intros Hk. exists "Bearer", k. split; [done |]. split; [done |].
      rewrite Hlook. by rewrite decide_True.
  - unfold handlePrompt_authorized.
    destruct (decide (Forall (λ k, k = "") apiKeys)) as [Hall | Hsome].
    + assert (NewGateway_keyMap apiKeys = ∅) as ->; [| done].
      apply map_eq. intros k. rewrite Hlook, lookup_empty.
      rewrite decide_False; [done |]. intros [Hin Hne].
      rewrite Forall_forall in Hall. by apply Hne, Hall.
    + assert (size (NewGateway_keyMap apiKeys) ≠ 0%nat) as Hsz.
      { intros Hz. apply map_size_empty_iff in Hz. apply Hsome.
        apply Forall_forall. intros k Hin.
        destruct (decide (k = "")) as [| Hne]; [done |].
        pose proof (Hlook k) as Hk. rewrite Hz, lookup_empty in Hk.
        rewrite decide_True in Hk; done. }
      destruct (size (NewGateway_keyMap apiKeys)); done.
Qed.

Lemma validateAPIKey_accepts_witness :
  validateAPIKey {["s3cret" := true]} "BeArEr s3cret" = true.
Proof.
  apply (validateAPIKey_accepts {["s3cret" := true]} "BeArEr s3cret").
  exists "BeArEr", "s3cret". repeat split.
Defined.

Lemma configured_keys_gate_witness :
  validateAPIKey (NewGateway_keyMap [""; "s3cret"]) "Bearer s3cret" = true ∧
  handlePrompt_authorized (NewGateway_keyMap [""]) "" = true.
Proof.
  destruct (configured_keys_gate [""; "s3cret"] "") as (_ & H1 & _).
  destruct (configured_keys_gate [""] "") as (_ & _ & H2).
  split.
  - apply (H1 "s3cret"). split; [| done]. apply list_elem_of_In. simpl. tauto.
  - rewrite H2. apply decide_True. by repeat constructor.
Defined.

(** ** More on the dispatch *)

(** X19. The dispatcher never retries: one [handlePrompt] invokes the
    remote call at most once, and not at all when the selection fails.  When
    the selection returns a worker and the remote call answers, the reply is
    HTTP 200 with the worker's ID and the text, the model and the token
    count of the answer, and a success is recorded on that worker's
    breaker. *)
Theorem handlePrompt_single_attempt {E : Type}
    (GenerateText : nat → E → (error + Reply) * E) (start : Time)
    (g : Gateway) (w : World) (env : E) :
  ((handlePrompt (counted_remote GenerateText) start g w (env, 0%nat)).2.2
     <= 1)%nat ∧
  (∀ e g1 w1, selectWorker g w = (Failed e, g1, w1) →
     (handlePrompt (counted_remote GenerateText) start g w (env, 0%nat)).2
       = (env, 0%nat)) ∧
  (∀ idx g1 w1 r env1,
     selectWorker g w = (Selected idx, g1, w1) →
     GenerateText idx env = (inr r, env1) →
     ∃ worker,
       workers g1 !! idx = Some worker ∧
       (handlePrompt GenerateText start g w env).1.1.1
         = Some (mkServed 200
                   (BodyOK (mkPromptResponse (Response r) (Model r)
                              (TotalTokens r)
                              ((time_Since start
                                  (RecordSuccess (CB worker) w1).2).1
                                 / 1000000)
                              (ID worker)))
                   "200"
                   (time_Since start (RecordSuccess (CB worker) w1).2).1) ∧
       workers (handlePrompt GenerateText start g w env).1.1.2 !! idx
         = Some (set_CB (RecordSuccess (CB worker) w1).1 worker) ∧
       (handlePrompt GenerateText start g w env).2 = env1).
Proof.
  split; [| split].
  - unfold handlePrompt.
    destruct (selectWorker g w) as [[sel g1] w1].
    destruct sel as [idx | e |]; simpl; [| lia..].
    destruct (workers g1 !! idx) as [worker |]; simpl; [| lia].
    unfold Execute.
    destruct (AllowRequest (CB worker) w1) as [[ok cb1] w2].
    destruct ok; simpl; [| lia].
    unfold counted_remote.
    destruct (GenerateText idx env) as [[e | r] env1]; simpl.
    + destruct (RecordFailure cb1 w2) as [cb2 w3]. simpl.
      destruct (failure_reply e). simpl. lia.
    + destruct (RecordSuccess cb1 w2) as [cb2 w3]. simpl. lia.
  - intros e g1 w1 Hsel. unfold handlePrompt. by rewrite Hsel.
  - intros idx g1 w1 r env1 Hsel Hgen.
    destruct (selectWorker_selected _ _ _ _ _ Hsel) as (worker & Hw & Hs).
    exists worker. split; [done |].
    unfold handlePrompt. rewrite Hsel, Hw.
    pose proof (Execute_allowed (remote_closure GenerateText idx)
                  (CB worker) w1 (env, None)) as Hex.
    rewrite AllowRequest_not_Open in Hex by done. simpl in Hex.
    rewrite Hgen in Hex. simpl in Hex. rewrite Hex by done.
    simpl. destruct (RecordSuccess (CB worker) w1) as [cb2 w2]. simpl.
    split; [done |]. split; [| done].
    apply list_lookup_insert_eq. by eapply lookup_lt_Some.
Qed.

Lemma handlePrompt_single_attempt_witness :
  (handlePrompt (counted_remote (failing_with sample_deadline)) 0
     sample_down sample_world (tt, 0%nat)).2 = (tt, 0%nat).
Proof.
  assert (Hfst : (selectWorker sample_down sample_world).1.1
                 = Failed (Errorf "all workers are unavailable"))
    by (vm_compute; reflexivity).
  assert (Hsel : selectWorker sample_down sample_world
                 = (Failed (Errorf "all workers are unavailable"),
                    (selectWorker sample_down sample_world).1.2,
                    (selectWorker sample_down sample_world).2)).
  { rewrite <- Hfst.
    by destruct (selectWorker sample_down sample_world) as [[? ?] ?]. }
  destruct (handlePrompt_single_attempt (failing_with sample_deadline) 0
              sample_down sample_world tt) as (_ & H & _).
  exact (H _ _ _ Hsel).
Defined.

(** ** The health checker *)

#[local] Set Warnings "-clear-no-such-hyp".

Lemma reports_insert (m : gmap string health.Check) name c st :
  m !! name = None →
  reports (<[name := c]> m) st ↔ health.Check_Status c = st ∨ reports m st.
Proof.
  intros Hfresh. unfold reports. split.
  - intros (n & c' & Hl & Hst).
    destruct (decide (n = name)) as [-> | Hne].
    + rewrite lookup_insert_eq in Hl. left. by simplify_eq.
    + rewrite lookup_insert_ne in Hl by done. right. by exists n, c'.
  - intros [Hst | (n & c' & Hl & Hst)].
    + exists name, c. by rewrite lookup_insert_eq.
    + exists n, c'. split; [| done].
      rewrite lookup_insert_ne; [done |]. intros ->. congruence.
Qed.

Lemma Run_step_worst {E} (response : health.Response) (env : E) name
    (checkFn : health.CheckFunc E) :
  health.Response_Checks response !! name = None →
  worst_status (health.Response_Checks response)
    (health.Response_Status response) →
  let r := (health.Run_step (response, env) (name, checkFn)).1 in
  worst_status (health.Response_Checks r) (health.Response_Status r) ∧
  health.Response_Checks r
    = <[name := (checkFn env).1]> (health.Response_Checks response) ∧
  health.Response_Version r = health.Response_Version response ∧
  health.Response_Timestamp r = health.Response_Timestamp response.
Proof.
  intros Hfresh Hworst. unfold health.Run_step.
  destruct response as [s ts v m]. destruct (checkFn env) as [c env1].
  simpl in *. split; [| done]. unfold worst_status in *.
  rewrite !reports_insert by done.
  unfold health.StatusHealthy, health.StatusUnhealthy, health.StatusDegraded
    in *.
  destruct Hworst as [[Hs Hw] | [[Hs Hw] | [Hs Hw]]]; subst s;
    repeat case_decide; simplify_eq; intuition congruence.
Qed.

Lemma Run_loop_worst {E} (order : list (string * health.CheckFunc E)) :
  ∀ (response : health.Response) (env : E),
  NoDup order.*1 →
  (∀ name, name ∈ order.*1 → health.Response_Checks response !! name = None) →
  worst_status (health.Response_Checks response)
    (health.Response_Status response) →
  let r := (foldl health.Run_step (response, env) order).1 in
  worst_status (health.Response_Checks r) (health.Response_Status r) ∧
  dom (health.Response_Checks r)
    = dom (health.Response_Checks response) ∪ list_to_set order.*1 ∧
  health.Response_Version r = health.Response_Version response ∧
  health.Response_Timestamp r = health.Response_Timestamp response.
Proof.
  induction order as [| [name checkFn] order IH]; intros response env Hnd Hfresh
    Hworst.
  - simpl. repeat split; [done | set_solver].
  - rewrite fmap_cons, NoDup_cons in Hnd. destruct Hnd as [Hnotin Hnd].
    destruct (Run_step_worst response env name checkFn) as (H1 & H2 & H3 & H4);
      [apply Hfresh; set_solver | done |].
    cbn [foldl].
    destruct (health.Run_step (response, env) (name, checkFn)) as [r1 env1].
    simpl in H1, H2, H3, H4.
    destruct (IH r1 env1) as (I1 & I2 & I3 & I4); [done | | done |].
    { intros n Hn. rewrite H2, lookup_insert_ne by set_solver.
      apply Hfresh. set_solver. }
    repeat split; [done | | congruence | congruence].
    rewrite I2, H2, dom_insert_L. set_solver.
Qed.

(** X20. [Run] reports the worst of the results it collects: with the
    checks of the map run in any order, the overall status is unhealthy
    when some check reports unhealthy, else degraded when some check
    reports degraded, else healthy (any other status of a check counts for
    nothing); every registered check is run and stored under its name; and
    the handler answers 503 exactly when some check reports unhealthy, and
    200 otherwise. *)
Theorem health_reports_worst {E G} (h : health.Checker E)
    (order : list (string * health.CheckFunc E)) (w : Go.World G) (env : E) :
  order ≡ₚ map_to_list (health.checks h) →
  let r := (health.Run h order w env).1.1 in
  worst_status (health.Response_Checks r) (health.Response_Status r) ∧
  dom (health.Response_Checks r) = dom (health.checks h) ∧
  health.Response_Version r = health.version h ∧
  health.Response_Timestamp r = clock w (reads w) ∧
  ((health.HTTPHandler h order w env).1.1.1 = 503
   ↔ reports (health.Response_Checks r) health.StatusUnhealthy) ∧
  ((health.HTTPHandler h order w env).1.1.1 = 200
   ↔ ¬ reports (health.Response_Checks r) health.StatusUnhealthy).
Proof.
  intros Hperm.
  assert (Hnd : NoDup order.*1).
  { rewrite Hperm. apply NoDup_fst_map_to_list. }
  assert (Hdom : list_to_set order.*1 =@{gset string} dom (health.checks h)).
  { rewrite Hperm. apply set_eq. intros n.
    rewrite elem_of_list_to_set, elem_of_dom, list_elem_of_fmap.
    split.
    - intros ([n' f] & -> & Hin). apply elem_of_map_to_list in Hin. by eexists.
    - intros [f Hf]. exists (n, f). split; [done |].
      by apply elem_of_map_to_list. }
  unfold health.HTTPHandler, health.Run. simpl.
  pose proof (Run_loop_worst order
                (health.mkResponse health.StatusHealthy (clock w (reads w))
                   (health.version h) ∅) env Hnd) as Hloop.
  simpl in Hloop.
  destruct Hloop as (H1 & H2 & H3 & H4).
  { intros n _. apply lookup_empty. }
  { right. right. split; [done |].
    split; intros (n & c & Hl & _); by rewrite lookup_empty in Hl. }
  destruct (foldl health.Run_step _ order) as [r env1]. simpl in *.
  rewrite dom_empty_L in H2.
  split; [done |]. split; [rewrite H2, <- Hdom; set_solver |]. split; [done |]. split; [done |].
  assert (Hiff : health.Response_Status r = health.StatusUnhealthy
                 ↔ reports (health.Response_Checks r) health.StatusUnhealthy).
  { unfold worst_status, health.StatusHealthy, health.StatusUnhealthy,
      health.StatusDegraded in *.
    destruct H1 as [[Hs Hr] | [[Hs Hr] | [Hs Hr]]]; rewrite Hs;
      split; intros; try done; tauto. }
  rewrite <- Hiff. case_decide as Hst; split; split; intros; done || lia.
Qed.

Lemma health_reports_worst_witness :
  (health.HTTPHandler sample_checker sample_checks sample_world 0%nat).1.1.1
    = 503.
Proof.
  destruct (health_reports_worst sample_checker sample_checks sample_world
              0%nat) as (_ & _ & _ & _ & H & _).
  - symmetry. apply map_to_list_to_map. simpl.
    repeat constructor; set_solver.
  - apply H. exists "ollama", (health.mkCheck "ollama" health.StatusUnhealthy
                                 "connection refused" 7).
    split; [| done]. vm_compute. reflexivity.
Defined.

(** ** Selection and time *)

(** A scan that reaches the slot of an eligible worker, under a monotone
    clock, returns a worker. *)
Lemma loop_reaches_eligible fuel : ∀ i s wc ws w j wj,
  0 < wc <= Z.of_nat (length ws) →
  monotone (clock w) →
  ws !! j = Some wj → eligible w wj →
  (∃ i0, i <= i0 < i + Z.of_nat fuel ∧ Z.to_nat (wrap32 (s + i0) mod wc) = j) →
  ∃ idx, (selectWorker_loop fuel i s wc ws w).1.1.1 = Found idx.
Proof.
  induction fuel as [| fuel IH]; intros i s wc ws w j wj Hwc Hmono Hj Hel Hreach.
  { destruct Hreach as (i0 & Hi0 & _). lia. }
  simpl. set (idx := Z.to_nat (wrap32 (s + i) mod wc)).
  assert (Hidx : (idx < length ws)%nat).
  { pose proof (Z.mod_pos_bound (wrap32 (s + i)) wc). lia. }
  destruct (lookup_lt_is_Some_2 ws idx Hidx) as [worker Hw]. rewrite Hw.
  assert (Hrest : idx ≠ j →
            ∃ i0, i + 1 <= i0 < i + 1 + Z.of_nat fuel ∧
                  Z.to_nat (wrap32 (s + i0) mod wc) = j).
  { intros Hne. destruct Hreach as (i0 & Hi0 & Hslot). exists i0.
    split; [| done]. destruct (decide (i0 = i)) as [-> | ?]; [done | lia]. }
  destruct (Healthy worker) eqn:Hh.
  - pose proof (AllowRequest_false (CB worker) w) as Hno.
    destruct (AllowRequest (CB worker) w) as [[ok cb1] w1] eqn:Hallow.
    destruct ok; simpl in *; [by eexists |].
    destruct Hno as (Hs & -> & Hsp); [done |].
    rewrite set_CB_same, list_insert_id by done.
    assert (Hw1 : w1 = (time_Now w).2).
    { destruct (decide (timed_out (CB worker) (clock w (reads w)))) as [Hout | Hn].
      - destruct (AllowRequest_Open_late _ w Hs Hout) as (Hok & _).
        rewrite Hallow in Hok. done.
      - rewrite AllowRequest_Open_early in Hallow by done. by simplify_eq. }
    assert (Hne : idx ≠ j).
    { intros ->. rewrite Hj in Hw. injection Hw as ->.
      destruct Hel as [_ Hp].
      destruct (AllowRequest_permits _ _ Hp) as (? & ? & Heq & _).
      rewrite Hallow in Heq. done. }
    apply (IH (i + 1) s wc ws w1 j wj); try done.
    + by rewrite Hw1.
    + eapply eligible_later; [exact Hmono | | | exact Hel];
        rewrite Hw1; simpl; [done | lia].
    + by apply Hrest.
  - assert (Hne : idx ≠ j).
    { intros ->. rewrite Hj in Hw. injection Hw as ->.
      destruct Hel as [Hhj _]. congruence. }
    apply (IH (i + 1) s wc ws w j wj); try done. by apply Hrest.
Qed.

(** X21. Unless the cursor wraps around, and with a clock that does not go
    back, [selectWorker] returns a worker whenever some worker of the pool
    is eligible: its liveness flag is set and its breaker is closed,
    half-open, or open with its timeout run out. *)
Theorem selection_succeeds_if_any_eligible g w j wj :
  Z.of_nat (length (workers g)) < 2 ^ 32 →
  0 <= workerIndex g →
  workerIndex g + Z.of_nat (length (workers g)) <= 2 ^ 32 →
  monotone (clock w) →
  workers g !! j = Some wj → eligible w wj →
  ∃ idx, (selectWorker g w).1.1 = Selected idx.
Proof.
  intros Hlen Hc HcN Hmono Hj Hel.
  assert (Hne : workers g ≠ []) by (intros He; by rewrite He in Hj).
  pose proof (lookup_lt_Some _ _ _ Hj) as Hlt.
  rewrite selectWorker_unfold by done. unfold selectWorker_scan. simpl.
  rewrite (wrap32_small (Z.of_nat (length (workers g)))) by lia.
  set (N := Z.of_nat (length (workers g))) in *.
  destruct (loop_reaches_eligible (Z.to_nat N) 0
              (wrap32 (wrap32 (workerIndex g + 1) - 1)) N (workers g) w j wj)
    as [idx Hidx]; try done; [lia | |].
  - exists ((Z.of_nat j - workerIndex g) mod N).
    pose proof (Z.mod_pos_bound (Z.of_nat j - workerIndex g) N ltac:(lia)).
    split; [lia |].
    pose proof (scan_slot_no_wrap g ((Z.of_nat j - workerIndex g) mod N)
                  Hne Hlen Hc HcN ltac:(done)) as Hslot.
    unfold scan_slot in Hslot.
    rewrite (wrap32_small (Z.of_nat (length (workers g)))) in Hslot by lia.
    fold N in Hslot. rewrite Hslot.
    rewrite Zplus_mod_idemp_r.
    replace (workerIndex g + (Z.of_nat j - workerIndex g)) with (Z.of_nat j)
      by lia.
    rewrite Z.mod_small by lia. apply Nat2Z.id.
  - exists idx. by rewrite Hidx.
Qed.

Lemma selection_succeeds_if_any_eligible_witness :
  ∃ idx, (selectWorker (mkGateway (workers sample_down) 8)
            (mkWorld sample_clock 5 [])).1.1 = Selected idx.
Proof.
  apply (selection_succeeds_if_any_eligible
           (mkGateway (workers sample_down) 8) (mkWorld sample_clock 5 [])
           1 (sample_worker "worker-1" sample_tripped true)).
  - reflexivity.
  - discriminate.
  - vm_compute. discriminate.
  - apply sample_clock_monotone.
  - reflexivity.
  - split; [reflexivity |]. intros _. vm_compute. discriminate.
Defined.

Lemma State_String_inj s1 s2 : State_String s1 = State_String s2 → s1 = s2.
Proof. by destruct s1, s2. Qed.

(** X22. The listing of [handleListWorkers] has one entry per worker, in
    pool order, and loses nothing of what it shows: the three state names
    are distinct, so two pools with the same listing agree, worker by worker,
    on ID, address, liveness flag and breaker state.  The listing shows the
    stored state: a breaker whose timeout has run out is still listed as
    open until a request asks for permission. *)
Theorem listing_is_faithful g g' :
  (handleListWorkers g).2 = length (workers g) ∧
  length (handleListWorkers g).1 = length (workers g) ∧
  (∀ i wk, workers g !! i = Some wk →
     (handleListWorkers g).1 !! i
       = Some (mkWorkerStatus (ID wk) (Address wk) (Healthy wk)
                 (State_String (state (CB wk))))) ∧
  ((handleListWorkers g).1 = (handleListWorkers g').1 →
   (λ wk, (identity wk, state (CB wk))) <$> workers g
     = (λ wk, (identity wk, state (CB wk))) <$> workers g').
Proof.
  unfold handleListWorkers. simpl. rewrite length_fmap.
  split; [done |]. split; [done |]. split.
  - intros i wk Hi. by rewrite list_lookup_fmap, Hi.
  - generalize (workers g'). induction (workers g) as [| wk ws IH];
      intros [| wk' ws']; simpl; try done.
    intros [= Hid Haddr Hh Hst Hrest].
    apply State_String_inj in Hst.
    unfold identity. rewrite Hid, Haddr, Hh, Hst. f_equal. by apply IH.
Qed.

Lemma listing_is_faithful_witness :
  ws_CBState <$> (handleListWorkers sample_down).1 = ["closed"; "open"].
Proof.
  destruct (listing_is_faithful sample_down sample_down) as (_ & _ & H & _).
  apply list_eq. intros [| [| i]].
  - rewrite list_lookup_fmap.
    rewrite (H 0%nat (sample_worker "worker-0" sample_new.1 false));
      reflexivity.
  - rewrite list_lookup_fmap.
    rewrite (H 1%nat (sample_worker "worker-1" sample_tripped true));
      reflexivity.
  - reflexivity.
Defined.
